(** * CVMailer: the per-company dispatch, the form filler and the mail builder

    A shallow embedding of [scripts/processor.py], [scripts/forms.py],
    [scripts/email_utils.py], [scripts/logger.py], [scripts/utils.py],
    [scripts/__main__.py] and of the single-file variant
    [scripts/auto_apply_script.py], which holds the same functions in one
    module.

    Python code that talks to the outside (SMTP, the Playwright page, the
    clock, the console, the log file) is written in a small state-and-error
    monad over the trace of everything the run has done so far.  What the
    outside answers is given by a [Runtime]: each answer may depend on the
    whole history, so every behaviour of the mail server and of the browser
    is covered.

    What is taken for granted: the configuration has the keys the scripts
    read with [cfg[...]] (they are record fields); templates are given in
    parsed form; writing to the console and appending to the log file
    succeed. *)

From Stdlib Require Import ZArith Bool Ascii String.
From stdpp Require Import base option list strings gmap.

Local Open Scope Z_scope.

(** ** Python values used by the scripts *)

(** An exception, with its class name and [str(e)]. *)
Record exn := Exn { exn_type : string; exn_str : string }.

Inductive result (A : Type) : Type :=
| Ok (a : A)
| Raise (e : exn).
Arguments Ok {A} a.
Arguments Raise {A} e.

Definition NameError (name : string) : exn :=
  Exn "NameError" ("name '" +:+ name +:+ "' is not defined").

(** [str(KeyError(k))] is the repr of the key. *)
Definition KeyError (key : string) : exn :=
  Exn "KeyError" ("'" +:+ key +:+ "'").

(** Truth value of a [str] and of an [Optional[str]]. *)
Definition nonempty (s : string) : bool := negb (String.eqb s "").

Definition truthy (o : option string) : bool :=
  match o with
  | Some s => nonempty s
  | None => false
  end.

(** [a or b] on an optional string. *)
Definition or_else (o : option string) (d : string) : string :=
  match o with
  | Some s => if nonempty s then s else d
  | None => d
  end.

(** [str(b)] for a bool. *)
Definition str_of_bool (b : bool) : string := if b then "True" else "False".

(** [s.startswith(p)]. *)
Definition startswith (s p : string) : bool := String.prefix p s.

(** [needle in hay] on strings. *)
Fixpoint contains (hay needle : string) : bool :=
  String.prefix needle hay ||
  match hay with
  | EmptyString => false
  | String _ rest => contains rest needle
  end.

(** A module's global names.  Only truthiness is ever asked of a value. *)
Inductive PyVal :=
| PyBool (b : bool)
| PyObject (descr : string).

Definition py_truth (v : PyVal) : bool :=
  match v with
  | PyBool b => b
  | PyObject _ => true
  end.

(** ** Data model *)

(** [companies.Company] *)
Record Company := {
  company : string;
  contact_email : option string;
  apply_url : option string;
  contact_name : option string;
  intro_note : option string
}.

(** A format string in parsed form: literal text and replacement fields
    [{name}].  Conversions and format specifications do not occur in the
    templates of the scripts and are not represented. *)
Inductive Segment :=
| Lit (text : string)
| Field (name : string).

Definition Template := list Segment.

(** The configuration document.  Keys read with [cfg[...]] are fields; keys
    read with [.get] are optional. *)
Record Identity := {
  first_name : string;
  last_name : string;
  email : string;
  phone : string;
  portfolio_url : option string;
  linkedin_url : option string
}.

Record EmailCfg := {
  from_name : option string;
  username : string;
  app_password : string;
  smtp_host : string;
  smtp_port : Z;
  subject : option Template;
  body_template : Template;
  attachments : option (list string)
}.

Record Selectors := {
  sel_name : list string;
  sel_email : list string;
  sel_phone : list string;
  sel_message : list string;
  sel_cv_upload : list string;
  sel_letter_upload : list string;
  sel_flyer_upload : list string;
  sel_submit : list string
}.

Record FormsCfg := {
  enabled : bool;
  headless : option bool;
  timeout_ms : option Z;
  min_delay_s : option Z;
  max_delay_s : option Z;
  selectors : Selectors;
  message_template : string
}.

Record Cfg := {
  identity : Identity;
  files : gmap string string;
  email_cfg : EmailCfg;
  forms : FormsCfg;
  output_csv : string
}.

(** What [msg.add_attachment] receives. *)
Record Attachment := {
  att_data : list Byte.byte;
  att_maintype : string;
  att_subtype : string;
  att_filename : string
}.

(** The [EmailMessage] under construction: the three headers, the text
    content and the attached parts in order. *)
Record EmailMessage := {
  msg_from : string;
  msg_to : option string;
  msg_subject : string;
  msg_content : string;
  msg_attachments : list Attachment
}.

(** One row of the activity log, in the column order of [append_log]. *)
Record LogEntry := {
  timestamp : string;
  log_company : string;
  channel : string;
  target : string;
  status : string;
  details : string
}.

(** ** The trace *)

(** Everything observable, oldest first.  The first four constructors mark
    the entry into a function of the scripts; the others are calls that leave
    the program, with what came back ([None]: the call returned). *)
Inductive Event :=
| EvProcessCompany (comp : Company)
| EvBuildEmail (comp : Company)
| EvSendEmail (msg : EmailMessage)
| EvFillForm (comp : Company)
| EvPrint (line : string)
| EvAppendLog (path : string) (row : LogEntry)
| EvSmtp (host : string) (port : Z) (user : string) (msg : EmailMessage) (r : option exn)
| EvLaunch (headless : bool) (r : option exn)
| EvNewPage (r : option exn)
| EvSetTimeout (ms : Z) (r : option exn)
| EvGoto (url : option string) (r : option exn)
| EvClick (sel : string) (timeout : option Z) (r : option exn)
| EvCount (sel : string) (r : result Z)
| EvFill (sel : string) (text : string) (r : option exn)
| EvSetInputFiles (sel : string) (path : string) (r : option exn)
| EvContent (r : result string)
| EvClose (r : option exn)
| EvDelay (min_s max_s : Z).

Definition Trace := list Event.

(** ** The runtime *)

(** The Python library and the world behind it.  The string and path
    functions and the file system are fixed during a run; the clock, the mail
    server and the browser answer as a function of the history. *)
Class Runtime := {
  (** [s.lower()], [s.strip()] *)
  rt_lower : string -> string;
  rt_strip : string -> string;
  (** [str(p)], [p.name], [p.suffix] for [p = Path(s).expanduser()] *)
  rt_path_str : string -> string;
  rt_path_name : string -> string;
  rt_path_suffix : string -> string;
  (** [p.exists()] and [open(p, "rb").read()] *)
  rt_exists : string -> bool;
  rt_read : string -> result (list Byte.byte);
  (** [datetime.now().isoformat(timespec="seconds")] *)
  rt_now : Trace -> string;
  (** [SMTP_SSL(host, port)], [login], [send_message] *)
  rt_smtp : Trace -> string -> Z -> string -> string -> EmailMessage -> option exn;
  (** Playwright *)
  rt_launch : Trace -> bool -> option exn;
  rt_new_page : Trace -> option exn;
  rt_set_timeout : Trace -> Z -> option exn;
  rt_goto : Trace -> option string -> option exn;
  rt_click : Trace -> string -> option Z -> option exn;
  rt_count : Trace -> string -> result Z;
  rt_fill : Trace -> string -> string -> option exn;
  rt_set_input_files : Trace -> string -> string -> option exn;
  rt_content : Trace -> result string;
  rt_close : Trace -> option exn
}.

(** ** The monad *)

Definition M (A : Type) : Type := Trace -> result A * Trace.

Definition ret {A} (a : A) : M A := fun tr => (Ok a, tr).

Definition raise {A} (e : exn) : M A := fun tr => (Raise e, tr).

Definition bind {A B} (m : M A) (k : A -> M B) : M B :=
  fun tr =>
    match m tr with
    | (Ok a, tr') => k a tr'
    | (Raise e, tr') => (Raise e, tr')
    end.

(** [try: m  except Exception as e: h e] *)
Definition try_except {A} (m : M A) (h : exn -> M A) : M A :=
  fun tr =>
    match m tr with
    | (Ok a, tr') => (Ok a, tr')
    | (Raise e, tr') => h e tr'
    end.

Definition emit (ev : Event) : M unit := fun tr => (Ok tt, tr ++ [ev]).

(** Lift a Python-level result into the monad. *)
Definition lift {A} (r : result A) : M A :=
  match r with
  | Ok a => ret a
  | Raise e => raise e
  end.

(** An outside call without a value: record it, then return or raise. *)
Definition call (answer : Trace -> option exn) (ev : option exn -> Event) : M unit :=
  fun tr =>
    let r := answer tr in
    (match r with None => Ok tt | Some e => Raise e end, tr ++ [ev r]).

(** An outside call with a value. *)
Definition query {A} (answer : Trace -> result A) (ev : result A -> Event) : M A :=
  fun tr => let r := answer tr in (r, tr ++ [ev r]).

Declare Scope py_scope.
Delimit Scope py_scope with py.
Notation "x <- m ;; k" := (bind m (fun x => k))
  (at level 100, m at next level, right associativity) : py_scope.
Notation "m ;; k" := (bind m (fun _ => k))
  (at level 100, right associativity) : py_scope.
Local Open Scope py_scope.

Definition print (line : string) : M unit := emit (EvPrint line).

(** ** Formatting *)

Definition LF : string := String (Ascii.ascii_of_nat 10) EmptyString.

Fixpoint kw_lookup (name : string) (kw : list (string * string)) : option string :=
  match kw with
  | [] => None
  | (k, v) :: rest => if String.eqb k name then Some v else kw_lookup name rest
  end.

(** [str.format] with keyword arguments [kw]: a field whose name is not a
    keyword raises [KeyError]. *)
Fixpoint format (tpl : Template) (kw : list (string * string)) : result string :=
  match tpl with
  | [] => Ok ""
  | Lit text :: rest =>
      match format rest kw with
      | Ok s => Ok (text +:+ s)
      | Raise e => Raise e
      end
  | Field name :: rest =>
      match kw_lookup name kw with
      | None => Raise (KeyError name)
      | Some v =>
          match format rest kw with
          | Ok s => Ok (v +:+ s)
          | Raise e => Raise e
          end
      end
  end.

Section Scripts.
Context `{Runtime}.

(** ** scripts/email_utils.py *)

(** [cfg["files"].get(key, "")] *)
Definition file_of (cfg : Cfg) (key : string) : string :=
  default "" (files cfg !! key).

(** The subtype chosen from [fpath.suffix.lower()]. *)
Definition subtype_of (fpath : string) : string :=
  if String.eqb (rt_lower (rt_path_suffix fpath)) ".pdf"
  then "pdf" else "octet-stream".

(** [msg.add_attachment(...)]: the part goes after those already there. *)
Definition add_attachment (msg : EmailMessage) (part : Attachment) : EmailMessage :=
  {| msg_from := msg_from msg; msg_to := msg_to msg;
     msg_subject := msg_subject msg; msg_content := msg_content msg;
     msg_attachments := msg_attachments msg ++ [part] |}.

(** The loop of [build_email] over [cfg["email"].get("attachments", [])]. *)
Fixpoint attach_files (cfg : Cfg) (keys : list string) (msg : EmailMessage)
  : M EmailMessage :=
  match keys with
  | [] => ret msg
  | key :: rest =>
      let fpath := file_of cfg key in
      if negb (rt_exists fpath) then
        print ("[!] Attachment missing: " +:+ rt_path_str fpath) ;;
        attach_files cfg rest msg
      else
        data <- lift (rt_read fpath) ;;
        attach_files cfg rest
          (add_attachment msg
             {| att_data := data; att_maintype := "application";
                att_subtype := subtype_of fpath;
                att_filename := rt_path_name fpath |})
  end.

(** The keyword arguments of the body template. *)
Definition body_fields (cfg : Cfg) (comp : Company) : list (string * string) :=
  let ident := identity cfg in
  let contact_name_or_team :=
    if truthy (contact_name comp)
    then rt_strip (default "" (contact_name comp))
    else "l'équipe RH" in
  [ ("first_name", first_name ident); ("last_name", last_name ident);
    ("email", email ident); ("phone", phone ident);
    ("portfolio_url", default "" (portfolio_url ident));
    ("linkedin_url", default "" (linkedin_url ident));
    ("company", company comp);
    ("contact_name", or_else (contact_name comp) "");
    ("contact_name_or_team", contact_name_or_team);
    ("intro_note", or_else (intro_note comp) "mon projet actuel") ].

(** Lines 8 to 27: headers and text content. *)
Definition render (cfg : Cfg) (comp : Company) : result EmailMessage :=
  let ident := identity cfg in
  let ec := email_cfg cfg in
  let sender :=
    or_else (from_name ec) (first_name ident +:+ " " +:+ last_name ident)
    +:+ " <" +:+ username ec +:+ ">" in
  match format (default [Lit "Candidature"] (subject ec))
               [("company", company comp)] with
  | Raise e => Raise e
  | Ok subj =>
      match format (body_template ec) (body_fields cfg comp) with
      | Raise e => Raise e
      | Ok body =>
          Ok {| msg_from := sender; msg_to := contact_email comp;
                msg_subject := subj; msg_content := body;
                msg_attachments := [] |}
      end
  end.

Definition build_email (cfg : Cfg) (comp : Company) : M EmailMessage :=
  emit (EvBuildEmail comp) ;;
  msg <- lift (render cfg comp) ;;
  attach_files cfg (default [] (attachments (email_cfg cfg))) msg.

Definition send_email (cfg : Cfg) (msg : EmailMessage) : M unit :=
  let ec := email_cfg cfg in
  emit (EvSendEmail msg) ;;
  call (fun tr => rt_smtp tr (smtp_host ec) (smtp_port ec) (username ec)
                          (app_password ec) msg)
       (EvSmtp (smtp_host ec) (smtp_port ec) (username ec) msg).

(** ** scripts/logger.py *)

(** One row is appended to the CSV file (whose parent directory and header
    are made with the first row). *)
Definition append_log (log_csv : string) (row : LogEntry) : M unit :=
  emit (EvAppendLog log_csv row).

(** ** scripts/forms.py *)

(** Reading a global name of the defining module. *)
Definition load_global (globals : gmap string PyVal) (name : string) : M PyVal :=
  match globals !! name with
  | Some v => ret v
  | None => raise (NameError name)
  end.

Definition el_count (sel : string) : M Z :=
  query (fun tr => rt_count tr sel) (EvCount sel).

Definition el_fill (sel text : string) : M unit :=
  call (fun tr => rt_fill tr sel text) (EvFill sel text).

Definition el_set_input_files (sel path : string) : M unit :=
  call (fun tr => rt_set_input_files tr sel path) (EvSetInputFiles sel path).

Definition el_click (sel : string) (timeout : option Z) : M unit :=
  call (fun tr => rt_click tr sel timeout) (EvClick sel timeout).

Definition cookie_selectors : list string :=
  ["text=Accepter"; "text=Tout accepter"; "text=OK"; "text=D'accord"].

(** Every banner button is tried; a failing click is ignored. *)
Fixpoint dismiss_cookies (sels : list string) : M unit :=
  match sels with
  | [] => ret tt
  | sel :: rest =>
      try_except (el_click sel (Some 2000)) (fun _ => ret tt) ;;
      dismiss_cookies rest
  end.

(** The loop shared by the name, email, phone and message fields:
    [if el.count() > 0: el.fill(text); break], each round inside
    [try ... except Exception: pass]. *)
Fixpoint fill_field (sels : list string) (text : string) : M unit :=
  match sels with
  | [] => ret tt
  | sel :: rest =>
      filled <- try_except
                  (n <- el_count sel ;;
                   if 0 <? n then el_fill sel text ;; ret true else ret false)
                  (fun _ => ret false) ;;
      if (filled : bool) then ret tt else fill_field rest text
  end.

(** The loop of [try_upload]. *)
Fixpoint upload_first (sels : list string) (path : string) : M bool :=
  match sels with
  | [] => ret false
  | sel :: rest =>
      sent <- try_except
                (n <- el_count sel ;;
                 if 0 <? n then el_set_input_files sel path ;; ret true
                 else ret false)
                (fun _ => ret false) ;;
      if (sent : bool) then ret true else upload_first rest path
  end.

Definition try_upload (cfg : Cfg) (group : list string) (file_key : string)
  : M bool :=
  let fpath := file_of cfg file_key in
  if negb (rt_exists fpath) then ret false
  else upload_first group (rt_path_str fpath).

(** The submit loop: the first click that does not raise ends it. *)
Fixpoint click_submit (sels : list string) : M bool :=
  match sels with
  | [] => ret false
  | sel :: rest =>
      clicked <- try_except (el_click sel None ;; ret true)
                            (fun _ => ret false) ;;
      if (clicked : bool) then ret true else click_submit rest
  end.

Definition success_texts : list string :=
  ["merci"; "thank you"; "reçu"; "received"; "envoyée"; "submitted";
   "bien reçu"].

Definition has_success_text (content : string) : bool :=
  existsb (contains (rt_lower content)) success_texts.

Definition success_check (submitted : bool) : M string :=
  let outcome := if submitted then "submitted" else "clicked_failed" in
  try_except
    (content <- query rt_content EvContent ;;
     if has_success_text content then ret "success_detected" else ret outcome)
    (fun _ => ret outcome).

Definition message_body (cfg : Cfg) (comp : Company) : string :=
  if truthy (intro_note comp)
  then message_template (forms cfg) +:+ LF +:+ LF +:+ "Focus: "
       +:+ default "" (intro_note comp)
  else message_template (forms cfg).

Definition report (outcome : string) (cv_ok letter_ok flyer_ok : bool) : string :=
  outcome +:+ "; " +:+ "uploads cv=" +:+ str_of_bool cv_ok +:+ ", letter="
  +:+ str_of_bool letter_ok +:+ ", flyer=" +:+ str_of_bool flyer_ok.

(** Lines 9 to 113: the browser session. *)
Definition form_session (cfg : Cfg) (comp : Company) : M string :=
  let forms_cfg := forms cfg in
  let sels := selectors forms_cfg in
  let ident := identity cfg in
  call (fun tr => rt_launch tr (default true (headless forms_cfg)))
       (EvLaunch (default true (headless forms_cfg))) ;;
  call rt_new_page EvNewPage ;;
  call (fun tr => rt_set_timeout tr (default 20000 (timeout_ms forms_cfg)))
       (EvSetTimeout (default 20000 (timeout_ms forms_cfg))) ;;
  call (fun tr => rt_goto tr (apply_url comp)) (EvGoto (apply_url comp)) ;;
  dismiss_cookies cookie_selectors ;;
  fill_field (sel_name sels) (first_name ident +:+ " " +:+ last_name ident) ;;
  fill_field (sel_email sels) (email ident) ;;
  fill_field (sel_phone sels) (phone ident) ;;
  fill_field (sel_message sels) (message_body cfg comp) ;;
  cv_ok <- try_upload cfg (sel_cv_upload sels) "cv" ;;
  letter_ok <- try_upload cfg (sel_letter_upload sels) "cover_letter" ;;
  flyer_ok <- try_upload cfg (sel_flyer_upload sels) "simplon_flyer" ;;
  submitted <- click_submit (sel_submit sels) ;;
  outcome <- success_check submitted ;;
  call rt_close EvClose ;;
  ret (report outcome cv_ok letter_ok flyer_ok).

(** [fill_form_and_submit], in the module whose global names are
    [globals]. *)
Definition fill_form_and_submit (globals : gmap string PyVal)
  (cfg : Cfg) (comp : Company) : M string :=
  emit (EvFillForm comp) ;;
  ok <- load_global globals "PLAYWRIGHT_OK" ;;
  if negb (py_truth ok) then ret "Playwright not installed"
  else
    load_global globals "sync_playwright" ;;
    form_session cfg comp.

(** ** scripts/processor.py *)

Definition mode_email (mode : string) : bool :=
  String.eqb mode "email" || String.eqb mode "both".

Definition mode_form (mode : string) : bool :=
  String.eqb mode "form" || String.eqb mode "both".

(** The guards of the two blocks of [process_company]. *)
Definition email_guard (comp : Company) (mode : string) : bool :=
  mode_email mode && truthy (contact_email comp).

Definition form_guard (cfg : Cfg) (comp : Company) (mode : string) : bool :=
  mode_form mode && truthy (apply_url comp) && enabled (forms cfg).

Definition now : M string := fun tr => (Ok (rt_now tr), tr).

Definition log_row (ts : string) (comp : Company) (chan tgt st det : string)
  : LogEntry :=
  {| timestamp := ts; log_company := company comp; channel := chan;
     target := tgt; status := st; details := det |}.

Definition form_status (details : string) : string :=
  if startswith details "success" || startswith details "submitted"
  then "ok" else "check".

Definition email_block (cfg : Cfg) (comp : Company) (dry_run : bool)
  (log_csv ts : string) : M unit :=
  let addr := default "" (contact_email comp) in
  try_except
    (status <- (if dry_run then ret "dry_run"
                else
                  msg <- build_email cfg comp ;;
                  send_email cfg msg ;;
                  ret "sent") ;;
     append_log log_csv (log_row ts comp "email" addr status "") ;;
     print ("[✓] Email -> " +:+ company comp +:+ " <" +:+ addr +:+ "> ["
            +:+ status +:+ "]"))
    (fun e =>
       append_log log_csv (log_row ts comp "email" addr "error" (exn_str e)) ;;
       print ("[x] Email failed for " +:+ company comp +:+ ": " +:+ exn_str e)).

Definition form_block (globals : gmap string PyVal) (cfg : Cfg) (comp : Company)
  (dry_run : bool) (log_csv ts : string) : M unit :=
  let url := default "" (apply_url comp) in
  try_except
    (sd <- (if dry_run then ret ("dry_run", "")
            else
              details <- fill_form_and_submit globals cfg comp ;;
              ret (form_status details, details)) ;;
     append_log log_csv (log_row ts comp "form" url (fst sd) (snd sd)) ;;
     print ("[✓] Form -> " +:+ company comp +:+ " [" +:+ fst sd +:+ "] "
            +:+ snd sd))
    (fun e =>
       append_log log_csv (log_row ts comp "form" url "error" (exn_str e)) ;;
       print ("[x] Form failed for " +:+ company comp +:+ ": " +:+ exn_str e)).

(** [globals] are the global names of the module that defines the
    [fill_form_and_submit] this [process_company] calls. *)
Definition process_company (globals : gmap string PyVal) (cfg : Cfg)
  (comp : Company) (dry_run : bool) (mode : string) : M unit :=
  emit (EvProcessCompany comp) ;;
  let log_csv := rt_path_str (output_csv cfg) in
  ts <- now ;;
  (if email_guard comp mode
   then email_block cfg comp dry_run log_csv ts else ret tt) ;;
  (if form_guard cfg comp mode
   then form_block globals cfg comp dry_run log_csv ts else ret tt).

(** ** scripts/utils.py *)

(** [random_delay]: the draw, the console line and the sleep are one event;
    the drawn duration is a float and is not represented. *)
Definition random_delay (min_s max_s : Z) : M unit := emit (EvDelay min_s max_s).

(** ** scripts/__main__.py *)

Record Args := {
  arg_mode : string;
  arg_dry_run : bool;
  arg_limit : option Z
}.

(** Truth value of [args.limit]: [None] and [0] are false. *)
Definition limit_set (limit : option Z) : bool :=
  match limit with
  | Some n => negb (n =? 0)
  | None => false
  end.

(** [l[:n]] *)
Definition slice_to {A} (l : list A) (n : Z) : list A :=
  if 0 <=? n then take (Z.to_nat n) l
  else take (Z.to_nat (Z.of_nat (length l) + n)) l.

(** The first skip rule and the second one. *)
Definition eligible (comp : Company) : bool :=
  nonempty (company comp)
  && (truthy (contact_email comp) || truthy (apply_url comp)).

(** The [for comp in companies] loop with its counter. *)
Fixpoint for_companies (globals : gmap string PyVal) (cfg : Cfg) (args : Args)
  (min_delay max_delay : Z) (companies : list Company) (count : Z) : M unit :=
  match companies with
  | [] => ret tt
  | comp :: rest =>
      if negb (nonempty (company comp)) then
        for_companies globals cfg args min_delay max_delay rest count
      else if negb (truthy (contact_email comp))
              && negb (truthy (apply_url comp)) then
        print ("[!] Skipping " +:+ company comp
               +:+ ": no contact_email or apply_url") ;;
        for_companies globals cfg args min_delay max_delay rest count
      else
        process_company globals cfg comp (arg_dry_run args) (arg_mode args) ;;
        let count := count + 1 in
        if limit_set (arg_limit args) && (default 0 (arg_limit args) <=? count)
        then ret tt
        else
          random_delay min_delay max_delay ;;
          for_companies globals cfg args min_delay max_delay rest count
  end.

(** [main] after the arguments, the configuration and the table are read. *)
Definition main (globals : gmap string PyVal) (cfg : Cfg)
  (companies : list Company) (args : Args) : M unit :=
  let companies :=
    if limit_set (arg_limit args)
    then slice_to companies (default 0 (arg_limit args)) else companies in
  let min_delay := default 5 (min_delay_s (forms cfg)) in
  let max_delay := default 15 (max_delay_s (forms cfg)) in
  for_companies globals cfg args min_delay max_delay companies 0 ;;
  print (LF +:+ "[i] Done. See log:" +:+ " " +:+ output_csv cfg).

End Scripts.

(** ** The two variants *)

(** Global names of [scripts/forms.py]: its imports and its one function. *)
Definition forms_globals : gmap string PyVal :=
  list_to_map
    [ ("sync_playwright", PyObject "function");
      ("Dict", PyObject "typing alias");
      ("Path", PyObject "class");
      ("Company", PyObject "class");
      ("fill_form_and_submit", PyObject "function") ].

(** Global names of [scripts/auto_apply_script.py] that the form filler
    reads.  The guarded import binds [PLAYWRIGHT_OK] either way and
    [sync_playwright] when Playwright is installed. *)
Definition script_globals (playwright_installed : bool) : gmap string PyVal :=
  list_to_map
    ([ ("PLAYWRIGHT_OK", PyBool playwright_installed);
       ("Path", PyObject "class");
       ("Company", PyObject "class");
       ("fill_form_and_submit", PyObject "function") ]
     ++ if playwright_installed
        then [ ("sync_playwright", PyObject "function");
               ("PWTimeout", PyObject "class") ]
        else []).

(** ** Reading a trace *)

(** The rows appended to the log, in order. *)
Definition log_rows (evs : list Event) : list LogEntry :=
  omap (fun ev => match ev with EvAppendLog _ row => Some row | _ => None end) evs.


(** The records handed to [process_company], in order. *)
Definition processed (evs : list Event) : list Company :=
  omap (fun ev => match ev with EvProcessCompany c => Some c | _ => None end) evs.

Definition is_delay (ev : Event) : bool :=
  match ev with EvDelay _ _ => true | _ => false end.

(** The number of politeness delays. *)
Definition delays (evs : list Event) : nat :=
  length (List.filter is_delay evs).


(** Events of a browser session. *)
Definition browser_event (ev : Event) : bool :=
  match ev with
  | EvLaunch _ _ | EvNewPage _ | EvSetTimeout _ _ | EvGoto _ _
  | EvClick _ _ _ | EvCount _ _ | EvFill _ _ _ | EvSetInputFiles _ _ _
  | EvContent _ | EvClose _ => true
  | _ => false
  end.

(** What may happen while [process_company] works on [comp]: no other
    record is started, nothing sleeps, and every row written names [comp]
    and one of its two targets. *)
Definition within (comp : Company) (ev : Event) : Prop :=
  match ev with
  | EvProcessCompany _ | EvDelay _ _ => False
  | EvAppendLog _ row =>
      log_company row = company comp
      /\ (Some (target row) = contact_email comp
          \/ Some (target row) = apply_url comp)
  | _ => True
  end.

(** A computation only adds events, all of them in [P]. *)
Definition emits {A} (P : Event -> Prop) (m : M A) : Prop :=
  forall tr, exists evs, snd (m tr) = tr ++ evs /\ Forall P evs.

(** Attempts of a selector loop, read off the trace.  [matched sel]: the
    locator counted at least one element; [attempted sel]: it was counted;
    [uploaded], [clicked]: the call on the element returned. *)
Definition matched (sel : string) (ev : Event) : bool :=
  match ev with
  | EvCount s (Ok n) => String.eqb s sel && (0 <? n)
  | _ => false
  end.

Definition attempted (sel : string) (ev : Event) : bool :=
  match ev with
  | EvCount s _ => String.eqb s sel
  | _ => false
  end.

Definition uploaded (sel path : string) (ev : Event) : bool :=
  match ev with
  | EvSetInputFiles s p None => String.eqb s sel && String.eqb p path
  | _ => false
  end.

Definition clicked (ev : Event) : bool :=
  match ev with EvClick _ None None => true | _ => false end.

(** "Some selector in the group matched an input that accepted the
    file." *)
Definition accepted (group : list string) (path : string) (evs : list Event)
  : bool :=
  existsb (fun sel => existsb (matched sel) evs && existsb (uploaded sel path) evs)
          group.

(** Events of the mail dispatcher. *)
Definition mailing (ev : Event) : Prop :=
  match ev with
  | EvBuildEmail _ | EvSendEmail _ | EvSmtp _ _ _ _ _ | EvPrint _ => True
  | _ => False
  end.

(** Events of the form dispatcher. *)
Definition browsing (ev : Event) : Prop :=
  match ev with
  | EvFillForm _ => True
  | _ => browser_event ev = true
  end.

(** Events of the email block of [process_company] for [comp]: the mail
    dispatcher, the console, and rows on the email channel addressed to the
    contact of [comp]. *)
Definition email_step (comp : Company) (ev : Event) : Prop :=
  match ev with
  | EvAppendLog _ row =>
      channel row = "email" /\ log_company row = company comp
      /\ target row = default "" (contact_email comp)
  | _ => mailing ev
  end.

(** Events of the form block. *)
Definition form_step (comp : Company) (ev : Event) : Prop :=
  match ev with
  | EvAppendLog _ row =>
      channel row = "form" /\ log_company row = company comp
      /\ target row = default "" (apply_url comp)
  | EvPrint _ => True
  | _ => browsing ev
  end.

(** What a whole run may do, given the table it was started on: every record
    handed to [process_company] is an eligible record of the table, and every
    row written names such a record and one of its two targets. *)
Definition of_eligible (companies : list Company) (ev : Event) : Prop :=
  match ev with
  | EvProcessCompany c => In c companies /\ eligible c = true
  | EvAppendLog _ row =>
      exists c, In c companies /\ eligible c = true
                /\ log_company row = company c
                /\ (Some (target row) = contact_email c
                    \/ Some (target row) = apply_url c)
  | _ => True
  end.

(** The console line of the second skip rule; the first one is silent. *)
Definition skip_note (comp : Company) : list Event :=
  if nonempty (company comp)
  then [EvPrint ("[!] Skipping " +:+ company comp
                 +:+ ": no contact_email or apply_url")]
  else [].

(** The last console line of [main]. *)
Definition done_line (cfg : Cfg) : string :=
  LF +:+ "[i] Done. See log:" +:+ " " +:+ output_csv cfg.

(** The records the loop of [main] reaches, and the delays it takes, as a
    function of the table alone. *)
Fixpoint visited (limit : option Z) (companies : list Company) (count : Z)
  : list Company :=
  match companies with
  | [] => []
  | comp :: rest =>
      if eligible comp then
        comp :: (if limit_set limit && (default 0 limit <=? count + 1)
                 then [] else visited limit rest (count + 1))
      else visited limit rest count
  end.

Fixpoint pauses (limit : option Z) (companies : list Company) (count : Z) : nat :=
  match companies with
  | [] => 0
  | comp :: rest =>
      if eligible comp then
        if limit_set limit && (default 0 limit <=? count + 1)
        then 0 else S (pauses limit rest (count + 1))
      else pauses limit rest count
  end.

(** ** Reading the attachments of a message *)

Section Attachments.
Context `{Runtime}.

(** The listed keys whose file exists, and those whose file does not. *)
Definition present (cfg : Cfg) (key : string) : bool := rt_exists (file_of cfg key).

Definition missing (cfg : Cfg) (key : string) : bool := negb (present cfg key).


(** The console warning for [key]. *)
Definition warning (cfg : Cfg) (key : string) : Event :=
  EvPrint ("[!] Attachment missing: " +:+ rt_path_str (file_of cfg key)).



End Attachments.




(** ** Reading a selector loop *)

(** What the loop of a field may leave on the trace, for the selectors it was
    given: a selector is passed over when its count raises, when it matches
    nothing, or when it matches and the fill raises; the loop ends with the
    first selector that matches and takes the text, or with the list. *)
Inductive field_log (text : string) : list string -> list Event -> Prop :=
| fl_none : field_log text [] []
| fl_filled sel rest n :
    0 < n ->
    field_log text (sel :: rest) [EvCount sel (Ok n); EvFill sel text None]
| fl_no_match sel rest n evs :
    n <= 0 -> field_log text rest evs ->
    field_log text (sel :: rest) (EvCount sel (Ok n) :: evs)
| fl_count_raised sel rest e evs :
    field_log text rest evs ->
    field_log text (sel :: rest) (EvCount sel (Raise e) :: evs)
| fl_fill_raised sel rest n e evs :
    0 < n -> field_log text rest evs ->
    field_log text (sel :: rest)
      (EvCount sel (Ok n) :: EvFill sel text (Some e) :: evs).

(** The claim that the loop stops at the first selector that matches: once a
    selector of the list has matched, no selector after it is tried. *)
Definition stops_at_first_match (sels : list string) (evs : list Event) : Prop :=
  forall pre sel post,
    sels = pre ++ sel :: post ->
    existsb (matched sel) evs = true ->
    forall later, In later post -> existsb (attempted later) evs = false.

(** Events of an upload loop and of the submit loop. *)
Definition upload_step (group : list string) (path : string) (ev : Event) : Prop :=
  match ev with
  | EvCount sel _ => In sel group
  | EvSetInputFiles sel p _ => In sel group /\ p = path
  | _ => False
  end.

Definition submit_step (sels : list string) (ev : Event) : Prop :=
  match ev with
  | EvClick sel None _ => In sel sels
  | _ => False
  end.

Section Outcome.
Context `{Runtime}.

(** The outcome word: "submitted" or "clicked_failed" by the submit loop,
    replaced by "success_detected" when the page content could be read and
    its lower-cased text contains a success keyword. *)
Definition outcome_of (submitted : bool) (page : result string) : string :=
  let clicked_word := if submitted then "submitted" else "clicked_failed" in
  match page with
  | Ok content =>
      if existsb (contains (rt_lower content)) success_texts
      then "success_detected" else clicked_word
  | Raise _ => clicked_word
  end.

End Outcome.

(** ** A concrete runtime *)

(** A runtime to run the scripts on: a disk of readable files, a static page
    described selector by selector, and a mail server that accepts or
    refuses.  Strings are treated as ASCII. *)
Module Sample.

Definition lower_char (c : Ascii.ascii) : Ascii.ascii :=
  let n := Ascii.nat_of_ascii c in
  if (Nat.leb 65 n && Nat.leb n 90)%bool then Ascii.ascii_of_nat (n + 32) else c.

Fixpoint lower (s : string) : string :=
  match s with
  | EmptyString => EmptyString
  | String c rest => String (lower_char c) (lower rest)
  end.

Definition is_space (c : Ascii.ascii) : bool :=
  let n := Ascii.nat_of_ascii c in
  (Nat.eqb n 32 || (Nat.leb 9 n && Nat.leb n 13))%bool.

Fixpoint lstrip (s : string) : string :=
  match s with
  | EmptyString => EmptyString
  | String c rest => if is_space c then lstrip rest else s
  end.

Fixpoint rstrip (s : string) : string :=
  match s with
  | EmptyString => EmptyString
  | String c rest =>
      match rstrip rest with
      | EmptyString => if is_space c then EmptyString else String c EmptyString
      | kept => String c kept
      end
  end.

Definition strip (s : string) : string := rstrip (lstrip s).

Definition path_str (s : string) : string :=
  if String.eqb s "" then "." else s.

(** The text after the last slash. *)
Fixpoint path_name_from (s acc : string) : string :=
  match s with
  | EmptyString => acc
  | String c rest =>
      if Ascii.eqb c "/"%char then path_name_from rest EmptyString
      else path_name_from rest (acc +:+ String c EmptyString)
  end.

Definition path_name (s : string) : string := path_name_from s EmptyString.

(** The text from the last dot on. *)
Fixpoint last_dot (s : string) : option string :=
  match s with
  | EmptyString => None
  | String c rest =>
      match last_dot rest with
      | Some tail => Some tail
      | None => if Ascii.eqb c "."%char then Some s else None
      end
  end.

Definition path_suffix (s : string) : string :=
  let name := path_name s in
  match last_dot name with
  | Some tail =>
      if (String.eqb tail name || String.eqb tail ".")%bool then "" else tail
  | None => ""
  end.

Record Site := {
  site_count : string -> result Z;
  site_fill : string -> option exn;
  site_upload : string -> option exn;
  site_click : string -> option exn;
  site_html : result string
}.

(** [Path("")] is the current directory: it exists and is not a file. *)
Definition is_a_directory : exn :=
  Exn "IsADirectoryError" "[Errno 21] Is a directory: '.'".

Definition runtime (disk : gmap string (list Byte.byte)) (site : Site)
  (refusal : option exn) : Runtime :=
  {| rt_lower := lower;
     rt_strip := strip;
     rt_path_str := path_str;
     rt_path_name := path_name;
     rt_path_suffix := path_suffix;
     rt_exists := fun p =>
       (String.eqb p "" || bool_decide (is_Some (disk !! p)))%bool;
     rt_read := fun p =>
       if String.eqb p "" then Raise is_a_directory
       else match disk !! p with
            | Some data => Ok data
            | None => Raise (Exn "FileNotFoundError" p)
            end;
     rt_now := fun _ => "2025-01-01T09:00:00";
     rt_smtp := fun _ _ _ _ _ _ => refusal;
     rt_launch := fun _ _ => None;
     rt_new_page := fun _ => None;
     rt_set_timeout := fun _ _ => None;
     rt_goto := fun _ _ => None;
     rt_click := fun _ sel _ => site_click site sel;
     rt_count := fun _ sel => site_count site sel;
     rt_fill := fun _ sel _ => site_fill site sel;
     rt_set_input_files := fun _ sel path =>
       if String.eqb path "." then Some is_a_directory else site_upload site sel;
     rt_content := fun _ => site_html site;
     rt_close := fun _ => None |}.

Definition timeout_error : exn := Exn "TimeoutError" "Timeout 20000ms exceeded.".


(** A page with one message area, one file input and a submit button, which
    thanks the applicant. *)
Definition simple_site : Site :=
  {| site_count := fun sel =>
       if (String.eqb sel "textarea[id*='motivation']"
           || String.eqb sel "input[type='file']")%bool then Ok 1 else Ok 0;
     site_fill := fun _ => None;
     site_upload := fun _ => None;
     site_click := fun sel =>
       if String.eqb sel "button[type='submit']" then None
       else Some timeout_error;
     site_html := Ok "<html><body>Merci pour votre candidature</body></html>" |}.

(** A page whose first name input is matched but cannot be filled. *)
Definition readonly_site : Site :=
  {| site_count := fun _ => Ok 1;
     site_fill := fun sel =>
       if String.eqb sel "input[name*='name']" then Some timeout_error
       else None;
     site_upload := fun _ => None;
     site_click := fun _ => None;
     site_html := Ok "<html></html>" |}.

Definition pdf_bytes : list Byte.byte := [Byte.x25; Byte.x50; Byte.x44; Byte.x46].

(** Only the CV is on disk. *)
Definition disk : gmap string (list Byte.byte) :=
  {[ "./docs/CV.pdf" := pdf_bytes ]}.

Definition default_selectors : Selectors :=
  {| sel_name := ["input[name*='name']"; "input[name*='prenom']";
                  "input[name*='nom']"; "input[id*='name']"; "input[id*='full']"];
     sel_email := ["input[type='email']"; "input[name*='mail']";
                   "input[id*='mail']"];
     sel_phone := ["input[type='tel']"; "input[name*='phone']";
                   "input[id*='phone']"];
     sel_message := ["textarea[name*='message']"; "textarea[id*='message']";
                     "textarea[name*='motivation']"; "textarea[id*='motivation']"];
     sel_cv_upload := ["input[type='file'][name*='cv']";
                       "input[type='file'][id*='cv']";
                       "input[type='file'][name*='resume']";
                       "input[type='file'][id*='resume']"; "input[type='file']"];
     sel_letter_upload := ["input[type='file'][name*='lettre']";
                           "input[type='file'][name*='motivation']";
                           "input[type='file']"];
     sel_flyer_upload := ["input[type='file']"];
     sel_submit := ["button[type='submit']"; "input[type='submit']";
                    "text=Postuler"; "text=Envoyer"; "text=Soumettre";
                    "text=Apply"; "text=Submit"] |}.

(** [DEFAULT_CONFIG] of [scripts/config_loader.py], as far as the scripts
    read it. *)
Definition cfg : Cfg :=
  {| identity :=
       {| first_name := "Name"; last_name := "Surname";
          email := "you@example.com"; phone := "+33 6 00 00 00 00";
          portfolio_url := Some "https://your-portfolio.example";
          linkedin_url := Some "https://www.linkedin.com/in/your-profile" |};
     files := {[ "cv" := "./docs/CV.pdf";
                 "cover_letter" := "./docs/motivation.pdf";
                 "flyer" := "./docs/flyer.pdf" ]};
     email_cfg :=
       {| from_name := Some "Name Surname";
          username := "you@example.com";
          app_password := "app_password_here";
          smtp_host := "smtp.gmail.com";
          smtp_port := 465;
          subject := Some [Lit "Candidature stage — "; Field "company"];
          body_template :=
            [Lit "Hello "; Field "contact_name_or_team";
             Lit ("," +:+ LF +:+ LF
                  +:+ "I am reaching out to apply for a development internship. "
                  +:+ "Please find attached my CV and cover letter."
                  +:+ LF +:+ LF +:+ "Portfolio: ");
             Field "portfolio_url"; Lit (LF +:+ "LinkedIn: ");
             Field "linkedin_url";
             Lit (LF +:+ LF +:+ "Kind regards," +:+ LF); Field "first_name";
             Lit " "; Field "last_name"; Lit LF; Field "phone"; Lit LF;
             Field "email"];
          attachments := Some ["cv"; "cover_letter"; "flyer"] |};
     forms :=
       {| enabled := true; headless := Some true; timeout_ms := Some 20000;
          min_delay_s := Some 7; max_delay_s := Some 20;
          selectors := default_selectors;
          message_template :=
            "Hello, I am applying for an internship. Please find attached my CV and cover letter. Thank you!" |};
     output_csv := "./logs/applications_log.csv" |}.


(** The same configuration with the attachment list of the single-file
    script, whose third key has no entry under [files] here. *)
Definition cfg_mixed : Cfg :=
  {| identity := identity cfg;
     files := files cfg;
     email_cfg :=
       {| from_name := from_name (email_cfg cfg);
          username := username (email_cfg cfg);
          app_password := app_password (email_cfg cfg);
          smtp_host := smtp_host (email_cfg cfg);
          smtp_port := smtp_port (email_cfg cfg);
          subject := subject (email_cfg cfg);
          body_template := body_template (email_cfg cfg);
          attachments := Some ["cv"; "cover_letter"; "simplon_flyer"] |};
     forms := forms cfg;
     output_csv := output_csv cfg |}.

(** A page on which only the third of the three email selectors matches. *)
Definition third_site : Site :=
  {| site_count := fun sel =>
       if String.eqb sel "input[id*='mail']" then Ok 1 else Ok 0;
     site_fill := fun _ => None;
     site_upload := fun _ => None;
     site_click := fun _ => None;
     site_html := Ok "<html></html>" |}.

(** A row without a company name. *)
Definition nameless : Company :=
  {| company := ""; contact_email := Some "hr@nowhere.test";
     apply_url := None; contact_name := None; intro_note := None |}.

Definition args (mode : string) (dry_run : bool) (limit : option Z) : Args :=
  {| arg_mode := mode; arg_dry_run := dry_run; arg_limit := limit |}.

(** The two rows of the starter table. *)
Definition exemple_sa : Company :=
  {| company := "Exemple SA"; contact_email := Some "hr@exemple.fr";
     apply_url := None; contact_name := Some "Mme Dupont";
     intro_note := Some "project data/JS" |}.

Definition startup_xyz : Company :=
  {| company := "Startup XYZ"; contact_email := None;
     apply_url := Some "https://startup.xyz/jobs/stage-dev";
     contact_name := None; intro_note := Some "responsive web applications" |}.

(** The runtimes of the sample runs. *)
Definition rt_simple : Runtime := runtime disk simple_site None.


Definition rt_readonly : Runtime := runtime disk readonly_site None.

Definition rt_third : Runtime := runtime disk third_site None.

End Sample.

(** ** Further readings of a trace *)

(** The mail dispatcher was entered or the mail server was reached. *)
Definition mail_event (ev : Event) : bool :=
  match ev with
  | EvBuildEmail _ | EvSendEmail _ | EvSmtp _ _ _ _ _ => true
  | _ => false
  end.

(** The form dispatcher was entered or the browser was reached. *)
Definition form_event (ev : Event) : bool :=
  match ev with
  | EvFillForm _ => true
  | _ => browser_event ev
  end.


(** Events of the cookie loop and of the loop of one field. *)
Definition cookie_step (ev : Event) : Prop :=
  match ev with
  | EvClick sel (Some t) _ => In sel cookie_selectors /\ t = 2000
  | _ => False
  end.

Definition field_step (sels : list string) (text : string) (ev : Event) : Prop :=
  match ev with
  | EvCount sel _ => In sel sels
  | EvFill sel t _ => In sel sels /\ t = text
  | _ => False
  end.




Section Session.
Context `{Runtime}.


(** The four calls that open the session, up to the one that raised [e]. *)
Definition opening_failed (cfg : Cfg) (comp : Company) (e : exn) (evs : list Event)
  : Prop :=
  let hl := default true (headless (forms cfg)) in
  let ms := default 20000 (timeout_ms (forms cfg)) in
  evs = [EvLaunch hl (Some e)]
  \/ evs = [EvLaunch hl None; EvNewPage (Some e)]
  \/ evs = [EvLaunch hl None; EvNewPage None; EvSetTimeout ms (Some e)]
  \/ evs = [EvLaunch hl None; EvNewPage None; EvSetTimeout ms None;
            EvGoto (apply_url comp) (Some e)].

(** What a browser session may send to the page: it goes to the apply URL of
    the record and to no other; it clicks the cookie buttons and the submit
    selectors; it counts and fills the selectors of a field with the text of
    that field; it gives the inputs of an upload group the file of that
    group. *)
Definition session_step (cfg : Cfg) (comp : Company) (ev : Event) : Prop :=
  let sels := selectors (forms cfg) in
  let ident := identity cfg in
  let path := fun key => rt_path_str (file_of cfg key) in
  match ev with
  | EvLaunch hl _ => hl = default true (headless (forms cfg))
  | EvNewPage _ | EvContent _ | EvClose _ => True
  | EvSetTimeout ms _ => ms = default 20000 (timeout_ms (forms cfg))
  | EvGoto url _ => url = apply_url comp
  | EvClick sel (Some t) _ => In sel cookie_selectors /\ t = 2000
  | EvClick sel None _ => In sel (sel_submit sels)
  | EvCount sel _ =>
      In sel (sel_name sels ++ sel_email sels ++ sel_phone sels
              ++ sel_message sels ++ sel_cv_upload sels
              ++ sel_letter_upload sels ++ sel_flyer_upload sels)
  | EvFill sel text _ =>
      (In sel (sel_name sels)
       /\ text = first_name ident +:+ " " +:+ last_name ident)
      \/ (In sel (sel_email sels) /\ text = email ident)
      \/ (In sel (sel_phone sels) /\ text = phone ident)
      \/ (In sel (sel_message sels) /\ text = message_body cfg comp)
  | EvSetInputFiles sel p _ =>
      (In sel (sel_cv_upload sels) /\ p = path "cv")
      \/ (In sel (sel_letter_upload sels) /\ p = path "cover_letter")
      \/ (In sel (sel_flyer_upload sels) /\ p = path "simplon_flyer")
  | _ => False
  end.


End Session.

(** ** The log file *)

(** [append_log] on the files it writes, a CSV file being the list of its
    records (lines 6 to 14 of scripts/logger.py): the file is opened for
    appending, the header goes in only when the file did not exist before,
    then the row. *)
Definition fieldnames : list string :=
  ["timestamp"; "company"; "channel"; "target"; "status"; "details"].

Definition cells (row : LogEntry) : list string :=
  [timestamp row; log_company row; channel row; target row; status row;
   details row].

Definition write_row (log_csv : string) (row : LogEntry)
  (files : gmap string (list (list string))) : gmap string (list (list string)) :=
  match files !! log_csv with
  | Some records => <[log_csv := records ++ [cells row]]> files
  | None => <[log_csv := [fieldnames; cells row]]> files
  end.

(** The files after the appends of a trace. *)
Definition written (evs : list Event) (files : gmap string (list (list string)))
  : gmap string (list (list string)) :=
  fold_left (fun files ev =>
               match ev with
               | EvAppendLog log_csv row => write_row log_csv row files
               | _ => files
               end) evs files.



(** * Properties *)


Ltac run_with H lemma :=
  unfold bind at 1 in H;
  let evs := fresh "evs" in
  let Hrun := fresh "Hrun" in
  let Hsteps := fresh "Hsteps" in
  match type of H with
  | context [match ?m ?t with _ => _ end] =>
      first
        [ destruct (lemma t) as (evs & Hrun & Hsteps)
        | destruct (lemma t) as (evs & Hrun) ];
      rewrite Hrun in H
  end.

Section Properties.
Context `{Runtime}.

(** ** Computations only extend the trace *)

Lemma emits_ret {A} (P : Event -> Prop) (a : A) : emits P (ret a).
Proof. intros tr. exists []. rewrite app_nil_r. split; [reflexivity | constructor]. Qed.

Lemma emits_raise {A} (P : Event -> Prop) (e : exn) : emits P (@raise A e).
Proof. intros tr. exists []. rewrite app_nil_r. split; [reflexivity | constructor]. Qed.

Lemma emits_lift {A} (P : Event -> Prop) (r : result A) : emits P (lift r).
Proof. destruct r; [apply emits_ret | apply emits_raise]. Qed.

Lemma emits_now (P : Event -> Prop) : emits P now.
Proof. intros tr. exists []. rewrite app_nil_r. split; [reflexivity | constructor]. Qed.

Lemma emits_emit (P : Event -> Prop) (ev : Event) : P ev -> emits P (emit ev).
Proof. intros Hev tr. exists [ev]. split; [reflexivity | repeat constructor; exact Hev]. Qed.

Lemma emits_call (P : Event -> Prop) answer ev :
  (forall r, P (ev r)) -> emits P (call answer ev).
Proof.
  intros Hev tr. exists [ev (answer tr)].
  split; [reflexivity | repeat constructor; apply Hev].
Qed.

Lemma emits_query {A} (P : Event -> Prop) (answer : Trace -> result A) ev :
  (forall r, P (ev r)) -> emits P (query answer ev).
Proof.
  intros Hev tr. exists [ev (answer tr)].
  split; [reflexivity | repeat constructor; apply Hev].
Qed.

Lemma emits_bind {A B} (P : Event -> Prop) (m : M A) (k : A -> M B) :
  emits P m -> (forall a, emits P (k a)) -> emits P (bind m k).
Proof.
  intros Hm Hk tr. unfold bind.
  destruct (Hm tr) as (e1 & E1 & F1).
  destruct (m tr) as [[a | e] tr1]; simpl in E1; subst tr1.
  - destruct (Hk a (tr ++ e1)) as (e2 & E2 & F2).
    exists (e1 ++ e2). rewrite E2, app_assoc. split; [reflexivity |].
    apply Forall_app; split; assumption.
  - exists e1. split; [reflexivity | assumption].
Qed.

Lemma emits_try {A} (P : Event -> Prop) (m : M A) (h : exn -> M A) :
  emits P m -> (forall e, emits P (h e)) -> emits P (try_except m h).
Proof.
  intros Hm Hh tr. unfold try_except.
  destruct (Hm tr) as (e1 & E1 & F1).
  destruct (m tr) as [[a | e] tr1]; simpl in E1; subst tr1.
  - exists e1. split; [reflexivity | assumption].
  - destruct (Hh e (tr ++ e1)) as (e2 & E2 & F2).
    exists (e1 ++ e2). rewrite E2, app_assoc. split; [reflexivity |].
    apply Forall_app; split; assumption.
Qed.

Lemma emits_weaken {A} (P Q : Event -> Prop) (m : M A) :
  (forall ev, P ev -> Q ev) -> emits P m -> emits Q m.
Proof.
  intros HPQ Hm tr. destruct (Hm tr) as (evs & E & F).
  exists evs. split; [exact E |]. eapply Forall_impl; eauto.
Qed.

(** The trace after a computation, with the events it added named. *)
Lemma emits_run {A} (P : Event -> Prop) (m : M A) (tr : Trace) :
  emits P m -> exists r evs, m tr = (r, tr ++ evs) /\ Forall P evs.
Proof.
  intros Hm. destruct (Hm tr) as (evs & E & F).
  destruct (m tr) as [r tr'] eqn:Hrun. simpl in E. subst tr'.
  exists r, evs. split; [reflexivity | assumption].
Qed.

(** ** What the dispatchers emit *)

Lemma attach_files_mailing cfg keys msg : emits mailing (attach_files cfg keys msg).
Proof.
  revert msg. induction keys as [| key rest IH]; intros msg; simpl.
  - apply emits_ret.
  - destruct (negb _).
    + apply emits_bind; [apply emits_emit; exact I | intros; apply IH].
    + apply emits_bind; [apply emits_lift | intros; apply IH].
Qed.

Lemma build_email_mailing cfg comp : emits mailing (build_email cfg comp).
Proof.
  unfold build_email.
  apply emits_bind; [apply emits_emit; exact I | intros _].
  apply emits_bind; [apply emits_lift | intros; apply attach_files_mailing].
Qed.

Lemma send_email_mailing cfg msg : emits mailing (send_email cfg msg).
Proof.
  unfold send_email.
  apply emits_bind; [apply emits_emit; exact I | intros _].
  apply emits_call. intros; exact I.
Qed.

Lemma dismiss_cookies_browsing sels : emits browsing (dismiss_cookies sels).
Proof.
  induction sels as [| sel rest IH]; simpl; [apply emits_ret |].
  apply emits_bind; [| intros; apply IH].
  apply emits_try; [apply emits_call; reflexivity | intros; apply emits_ret].
Qed.

Lemma fill_field_browsing sels text : emits browsing (fill_field sels text).
Proof.
  induction sels as [| sel rest IH]; simpl; [apply emits_ret |].
  apply emits_bind.
  - apply emits_try; [| intros; apply emits_ret].
    apply emits_bind; [apply emits_query; reflexivity | intros n].
    destruct (0 <? n); [| apply emits_ret].
    apply emits_bind; [apply emits_call; reflexivity | intros; apply emits_ret].
  - intros [|]; [apply emits_ret | apply IH].
Qed.

Lemma upload_first_browsing sels path : emits browsing (upload_first sels path).
Proof.
  induction sels as [| sel rest IH]; simpl; [apply emits_ret |].
  apply emits_bind.
  - apply emits_try; [| intros; apply emits_ret].
    apply emits_bind; [apply emits_query; reflexivity | intros n].
    destruct (0 <? n); [| apply emits_ret].
    apply emits_bind; [apply emits_call; reflexivity | intros; apply emits_ret].
  - intros [|]; [apply emits_ret | apply IH].
Qed.

Lemma try_upload_browsing cfg group key : emits browsing (try_upload cfg group key).
Proof.
  unfold try_upload. destruct (negb _); [apply emits_ret | apply upload_first_browsing].
Qed.

Lemma click_submit_browsing sels : emits browsing (click_submit sels).
Proof.
  induction sels as [| sel rest IH]; simpl; [apply emits_ret |].
  apply emits_bind.
  - apply emits_try; [| intros; apply emits_ret].
    apply emits_bind; [apply emits_call; reflexivity | intros; apply emits_ret].
  - intros [|]; [apply emits_ret | apply IH].
Qed.

Lemma success_check_browsing submitted : emits browsing (success_check submitted).
Proof.
  unfold success_check. apply emits_try; [| intros; apply emits_ret].
  apply emits_bind; [apply emits_query; reflexivity | intros c].
  destruct (has_success_text c); apply emits_ret.
Qed.

Lemma form_session_browsing cfg comp : emits browsing (form_session cfg comp).
Proof.
  unfold form_session.
  repeat (apply emits_bind;
          [ first [ apply emits_call; reflexivity
                  | apply dismiss_cookies_browsing | apply fill_field_browsing
                  | apply try_upload_browsing | apply click_submit_browsing
                  | apply success_check_browsing ]
          | intros ]).
  apply emits_ret.
Qed.

Lemma load_global_browsing globals name : emits browsing (load_global globals name).
Proof. unfold load_global. destruct (globals !! name); [apply emits_ret | apply emits_raise]. Qed.

Lemma fill_form_and_submit_browsing globals cfg comp :
  emits browsing (fill_form_and_submit globals cfg comp).
Proof.
  unfold fill_form_and_submit.
  apply emits_bind; [apply emits_emit; exact I | intros _].
  apply emits_bind; [apply load_global_browsing | intros ok].
  destruct (negb _); [apply emits_ret |].
  apply emits_bind; [apply load_global_browsing | intros; apply form_session_browsing].
Qed.

Lemma mailing_email_step comp ev : mailing ev -> email_step comp ev.
Proof. destruct ev; simpl; tauto. Qed.

Lemma browsing_form_step comp ev : browsing ev -> form_step comp ev.
Proof. destruct ev; simpl; try tauto; discriminate. Qed.

Lemma email_block_steps cfg comp dry_run log_csv ts :
  emits (email_step comp) (email_block cfg comp dry_run log_csv ts).
Proof.
  unfold email_block. apply emits_try.
  - apply emits_bind.
    + destruct dry_run; [apply emits_ret |].
      apply emits_bind;
        [eapply emits_weaken; [apply mailing_email_step | apply build_email_mailing]
        | intros msg].
      apply emits_bind;
        [eapply emits_weaken; [apply mailing_email_step | apply send_email_mailing]
        | intros].
      apply emits_ret.
    + intros st. apply emits_bind; [apply emits_emit; repeat split | intros _].
      apply emits_emit; exact I.
  - intros e. apply emits_bind; [apply emits_emit; repeat split | intros _].
    apply emits_emit; exact I.
Qed.

Lemma form_block_steps globals cfg comp dry_run log_csv ts :
  emits (form_step comp) (form_block globals cfg comp dry_run log_csv ts).
Proof.
  unfold form_block. apply emits_try.
  - apply emits_bind.
    + destruct dry_run; [apply emits_ret |].
      apply emits_bind;
        [eapply emits_weaken;
           [apply browsing_form_step | apply fill_form_and_submit_browsing]
        | intros; apply emits_ret].
    + intros sd. apply emits_bind; [apply emits_emit; repeat split | intros _].
      apply emits_emit; exact I.
  - intros e. apply emits_bind; [apply emits_emit; repeat split | intros _].
    apply emits_emit; exact I.
Qed.

(** Neither block raises. *)
Lemma email_block_returns cfg comp dry_run log_csv ts tr :
  fst (email_block cfg comp dry_run log_csv ts tr) = Ok tt.
Proof.
  unfold email_block, try_except, bind.
  destruct dry_run; [reflexivity |].
  destruct (build_email cfg comp tr) as [[msg | e] tr1]; [| reflexivity].
  destruct (send_email cfg msg tr1) as [[[] | e] tr2]; reflexivity.
Qed.

Lemma form_block_returns globals cfg comp dry_run log_csv ts tr :
  fst (form_block globals cfg comp dry_run log_csv ts tr) = Ok tt.
Proof.
  unfold form_block, try_except, bind.
  destruct dry_run; [reflexivity |].
  destruct (fill_form_and_submit globals cfg comp tr) as [[d | e] tr1]; reflexivity.
Qed.





(** The email block of [process_company], run from [tr0]. *)
Lemma email_part_run cfg comp dry_run mode log_csv ts tr0 :
  exists mail,
    (if email_guard comp mode
     then email_block cfg comp dry_run log_csv ts else ret tt) tr0
    = (Ok tt, tr0 ++ mail)
    /\ Forall (email_step comp) mail.
Proof.
  destruct (email_guard comp mode).
  - destruct (emits_run (email_step comp) _ tr0
                (email_block_steps cfg comp dry_run log_csv ts))
      as (r0 & mail & Hrun & Hmail).
    pose proof (email_block_returns cfg comp dry_run log_csv ts tr0) as Hret.
    rewrite Hrun in Hret. simpl in Hret. subst r0. eauto.
  - exists []. rewrite app_nil_r. split; [reflexivity | constructor].
Qed.

(** The form block of [process_company], run from [tr1]. *)
Lemma form_part_run globals cfg comp dry_run mode log_csv ts tr1 :
  exists web,
    (if form_guard cfg comp mode
     then form_block globals cfg comp dry_run log_csv ts else ret tt) tr1
    = (Ok tt, tr1 ++ web)
    /\ Forall (form_step comp) web.
Proof.
  destruct (form_guard cfg comp mode).
  - destruct (emits_run (form_step comp) _ tr1
                (form_block_steps globals cfg comp dry_run log_csv ts))
      as (r0 & web & Hrun & Hweb).
    pose proof (form_block_returns globals cfg comp dry_run log_csv ts tr1) as Hret.
    rewrite Hrun in Hret. simpl in Hret. subst r0. eauto.
  - exists []. rewrite app_nil_r. split; [reflexivity | constructor].
Qed.

Lemma truthy_some o : truthy o = true -> Some (default "" o) = o.
Proof. destruct o; simpl; [reflexivity | discriminate]. Qed.

Lemma email_step_within comp ev :
  truthy (contact_email comp) = true -> email_step comp ev -> within comp ev.
Proof.
  intros Ht. destruct ev; simpl; try tauto.
  intros (_ & Hc & Htgt). split; [exact Hc |]. left.
  rewrite Htgt. apply truthy_some, Ht.
Qed.

Lemma form_step_within comp ev :
  truthy (apply_url comp) = true -> form_step comp ev -> within comp ev.
Proof.
  intros Ht. destruct ev; simpl; try tauto; try discriminate.
  intros (_ & Hc & Htgt). split; [exact Hc |]. right.
  rewrite Htgt. apply truthy_some, Ht.
Qed.

(** [process_company] returns, and apart from its entry mark everything it
    does stays within its record. *)
Lemma process_company_run globals cfg comp dry_run mode tr :
  exists evs,
    process_company globals cfg comp dry_run mode tr
    = (Ok tt, tr ++ EvProcessCompany comp :: evs)
    /\ Forall (within comp) evs.
Proof.
  unfold process_company.
  unfold bind at 1 2 3. unfold emit at 1. unfold now at 1.
  set (tr0 := tr ++ [EvProcessCompany comp]).
  assert (Hmail : exists mail,
             (if email_guard comp mode
              then email_block cfg comp dry_run (rt_path_str (output_csv cfg))
                     (rt_now tr0)
              else ret tt) tr0 = (Ok tt, tr0 ++ mail)
             /\ Forall (within comp) mail).
  { unfold email_guard. destruct (truthy (contact_email comp)) eqn:Ht.
    - destruct (email_part_run cfg comp dry_run mode
                  (rt_path_str (output_csv cfg)) (rt_now tr0) tr0)
        as (mail & Hrun & Hsteps).
      unfold email_guard in Hrun. rewrite Ht in Hrun.
      exists mail. split; [exact Hrun |].
      eapply Forall_impl; [exact Hsteps | intros ev; apply email_step_within, Ht].
    - rewrite andb_false_r. exists []. rewrite app_nil_r.
      split; [reflexivity | constructor]. }
  destruct Hmail as (mail & Hrun & Hmail). rewrite Hrun.
  set (tr1 := tr0 ++ mail).
  assert (Hweb : exists web,
             (if form_guard cfg comp mode
              then form_block globals cfg comp dry_run
                     (rt_path_str (output_csv cfg)) (rt_now tr0)
              else ret tt) tr1 = (Ok tt, tr1 ++ web)
             /\ Forall (within comp) web).
  { unfold form_guard. destruct (truthy (apply_url comp)) eqn:Ht.
    - destruct (form_part_run globals cfg comp dry_run mode
                  (rt_path_str (output_csv cfg)) (rt_now tr0) tr1)
        as (web & Hrun' & Hsteps).
      unfold form_guard in Hrun'. rewrite Ht in Hrun'.
      exists web. split; [exact Hrun' |].
      eapply Forall_impl; [exact Hsteps | intros ev; apply form_step_within, Ht].
    - rewrite andb_false_r. simpl. exists []. rewrite app_nil_r.
      split; [reflexivity | constructor]. }
  destruct Hweb as (web & Hrun' & Hweb). rewrite Hrun'.
  exists (mail ++ web). subst tr1 tr0.
  split; [rewrite <- !app_assoc; reflexivity |].
  apply Forall_app. split; assumption.
Qed.

(** ** The per-company workflow *)



(** ** The package variant: scripts/forms.py *)




(** ** The run *)

Lemma processed_app evs1 evs2 : processed (evs1 ++ evs2) = processed evs1 ++ processed evs2.
Proof. unfold processed. apply omap_app. Qed.

Lemma delays_app evs1 evs2 : delays (evs1 ++ evs2) = (delays evs1 + delays evs2)%nat.
Proof. unfold delays. rewrite List.filter_app, length_app. reflexivity. Qed.

Lemma within_processed comp evs : Forall (within comp) evs -> processed evs = [].
Proof.
  induction 1 as [| ev evs Hev _ IH]; [reflexivity |].
  destruct ev; simpl in *; try contradiction; exact IH.
Qed.

Lemma within_delays comp evs : Forall (within comp) evs -> delays evs = 0%nat.
Proof.
  induction 1 as [| ev evs Hev _ IH]; [reflexivity |].
  destruct ev; simpl in *; try contradiction; exact IH.
Qed.

Lemma within_of_eligible companies comp ev :
  In comp companies -> eligible comp = true -> within comp ev ->
  of_eligible companies ev.
Proof.
  intros Hin Hel. destruct ev; simpl; try tauto.
  intros (Hc & Htgt). exists comp. auto.
Qed.

Lemma of_eligible_incl cs1 cs2 ev :
  (forall c, In c cs1 -> In c cs2) -> of_eligible cs1 ev -> of_eligible cs2 ev.
Proof.
  intros Hincl. destruct ev; simpl; try tauto.
  - intros (Hin & Hel). auto.
  - intros (c & Hin & Hrest). exists c. auto.
Qed.

(** The two skip tests of the loop are the negation of [eligible]. *)
Lemma eligible_tests comp :
  eligible comp =
  negb (negb (nonempty (company comp)))
  && negb (negb (truthy (contact_email comp)) && negb (truthy (apply_url comp))).
Proof.
  unfold eligible.
  destruct (nonempty _), (truthy (contact_email comp)), (truthy (apply_url comp));
    reflexivity.
Qed.

(** One round of the loop on a record that a skip rule rejects. *)
Lemma for_companies_skip globals cfg args min_delay max_delay comp rest count tr :
  eligible comp = false ->
  for_companies globals cfg args min_delay max_delay (comp :: rest) count tr
  = for_companies globals cfg args min_delay max_delay rest count
      (tr ++ skip_note comp).
Proof.
  intros Hel. rewrite eligible_tests in Hel. unfold skip_note. simpl.
  destruct (nonempty (company comp)); simpl in *.
  - destruct (negb (truthy (contact_email comp)) && negb (truthy (apply_url comp)));
      [reflexivity | discriminate].
  - rewrite app_nil_r. reflexivity.
Qed.

(** One round of the loop on an eligible record. *)
Lemma for_companies_process globals cfg args min_delay max_delay comp rest count tr :
  eligible comp = true ->
  for_companies globals cfg args min_delay max_delay (comp :: rest) count tr
  = (process_company globals cfg comp (arg_dry_run args) (arg_mode args) ;;
     if limit_set (arg_limit args) && (default 0 (arg_limit args) <=? count + 1)
     then ret tt
     else
       random_delay min_delay max_delay ;;
       for_companies globals cfg args min_delay max_delay rest (count + 1)) tr.
Proof.
  intros Hel. rewrite eligible_tests in Hel. simpl.
  destruct (nonempty (company comp)); simpl in *; [| discriminate].
  destruct (negb (truthy (contact_email comp)) && negb (truthy (apply_url comp)));
    [discriminate | reflexivity].
Qed.

(** The loop returns; what it processes and how often it pauses is read off
    the table, and everything it does belongs to eligible records. *)
Lemma for_companies_run globals cfg args min_delay max_delay companies :
  forall count tr,
  exists evs,
    for_companies globals cfg args min_delay max_delay companies count tr
    = (Ok tt, tr ++ evs)
    /\ processed evs = visited (arg_limit args) companies count
    /\ delays evs = pauses (arg_limit args) companies count
    /\ Forall (of_eligible companies) evs.
Proof.
  induction companies as [| comp rest IH]; intros count tr.
  - exists []. rewrite app_nil_r. repeat split; constructor.
  - destruct (eligible comp) eqn:Hel.
    + rewrite for_companies_process by exact Hel. unfold bind at 1.
      destruct (process_company_run globals cfg comp (arg_dry_run args)
                  (arg_mode args) tr) as (evs1 & Hrun & Hin).
      rewrite Hrun. simpl visited. simpl pauses. rewrite Hel.
      assert (Hown : Forall (of_eligible (comp :: rest)) (EvProcessCompany comp :: evs1)).
      { constructor; [split; [left; reflexivity | exact Hel] |].
        eapply Forall_impl; [exact Hin |].
        intros ev. apply within_of_eligible; [left; reflexivity | exact Hel]. }
      destruct (limit_set (arg_limit args) && (default 0 (arg_limit args) <=? count + 1)).
      * exists (EvProcessCompany comp :: evs1). split; [reflexivity |].
        change (EvProcessCompany comp :: evs1) with ([EvProcessCompany comp] ++ evs1).
        rewrite processed_app, delays_app.
        rewrite (within_processed _ _ Hin), (within_delays _ _ Hin).
        repeat split. exact Hown.
      * unfold bind, random_delay, emit.
        destruct (IH (count + 1)
                    ((tr ++ EvProcessCompany comp :: evs1) ++ [EvDelay min_delay max_delay]))
          as (evs2 & Hrest & Hproc & Hdel & Hall).
        rewrite Hrest.
        exists ([EvProcessCompany comp] ++ evs1 ++ [EvDelay min_delay max_delay] ++ evs2).
        split; [rewrite <- !app_assoc; reflexivity |].
        rewrite !processed_app, !delays_app.
        rewrite (within_processed _ _ Hin), (within_delays _ _ Hin), Hproc, Hdel.
        repeat split.
        apply Forall_app. split; [constructor; [| constructor] |].
        { split; [left; reflexivity | exact Hel]. }
        apply Forall_app. split.
        { inversion Hown; assumption. }
        apply Forall_app. split; [repeat constructor |].
        eapply Forall_impl; [exact Hall |].
        intros ev. apply of_eligible_incl. intros c Hc. right. exact Hc.
    + rewrite for_companies_skip by exact Hel.
      destruct (IH count (tr ++ skip_note comp)) as (evs2 & Hrest & Hproc & Hdel & Hall).
      rewrite Hrest. exists (skip_note comp ++ evs2).
      split; [rewrite <- app_assoc; reflexivity |].
      rewrite processed_app, delays_app. simpl visited. simpl pauses. rewrite Hel.
      assert (Hnote : processed (skip_note comp) = [] /\ delays (skip_note comp) = 0%nat
                      /\ Forall (of_eligible (comp :: rest)) (skip_note comp)).
      { unfold skip_note. destruct (nonempty (company comp)); repeat split; repeat constructor. }
      destruct Hnote as (Hn1 & Hn2 & Hn3). rewrite Hn1, Hn2.
      repeat split; [exact Hproc | exact Hdel |].
      apply Forall_app. split; [exact Hn3 |].
      eapply Forall_impl; [exact Hall |].
      intros ev. apply of_eligible_incl. intros c Hc. right. exact Hc.
Qed.




Lemma slice_to_incl {A} (l : list A) n x : In x (slice_to l n) -> In x l.
Proof.
  unfold slice_to. rewrite <- !list_elem_of_In.
  destruct (0 <=? n); intros Hx;
    (eapply elem_of_sublist; [exact Hx | apply sublist_take]).
Qed.


(** The table the loop of [main] runs over. *)
Lemma main_run globals cfg companies args tr :
  let table :=
    if limit_set (arg_limit args)
    then slice_to companies (default 0 (arg_limit args)) else companies in
  exists evs,
    main globals cfg companies args tr
    = (Ok tt, tr ++ evs ++ [EvPrint (done_line cfg)])
    /\ processed evs = visited (arg_limit args) table 0
    /\ delays evs = pauses (arg_limit args) table 0
    /\ Forall (of_eligible companies) evs.
Proof.
  intros table. unfold main. fold table.
  destruct (for_companies_run globals cfg args
              (default 5 (min_delay_s (forms cfg)))
              (default 15 (max_delay_s (forms cfg))) table 0 tr)
    as (evs & Hrun & Hproc & Hdel & Hall).
  unfold bind. rewrite Hrun. exists evs.
  split; [unfold print, emit, done_line; rewrite <- app_assoc; reflexivity |].
  repeat split; [exact Hproc | exact Hdel |].
  eapply Forall_impl; [exact Hall |].
  intros ev. apply of_eligible_incl. subst table.
  destruct (limit_set (arg_limit args)); [apply slice_to_incl | auto].
Qed.

Lemma processed_In comp evs : In comp (processed evs) -> In (EvProcessCompany comp) evs.
Proof.
  induction evs as [| ev evs IH]; simpl; [tauto |].
  destruct ev; simpl; try (intros Hin; right; apply IH, Hin).
  intros [-> | Hin]; [left; reflexivity | right; apply IH, Hin].
Qed.

Lemma ineligible_spec comp :
  company comp = ""
  \/ (truthy (contact_email comp) = false /\ truthy (apply_url comp) = false) ->
  eligible comp = false.
Proof.
  unfold eligible, nonempty. intros [-> | (-> & ->)]; [reflexivity |].
  apply andb_false_r.
Qed.

(** C2. Take a record whose company name is empty, or which has neither a
    contact address nor an apply URL.  Whatever the mode, the dry-run flag
    and the limit: the round of the loop on that record leaves nothing but
    the console warning of the second skip rule (no row, no call, no delay,
    the counter unchanged); and in a whole run on any table the record is
    never handed to [process_company], while every row written belongs to an
    eligible record of the table. *)
Theorem skipped_records_untouched globals cfg args comp :
  company comp = ""
  \/ (truthy (contact_email comp) = false /\ truthy (apply_url comp) = false) ->
  (forall min_delay max_delay rest count tr,
      for_companies globals cfg args min_delay max_delay (comp :: rest) count tr
      = for_companies globals cfg args min_delay max_delay rest count
          (tr ++ skip_note comp))
  /\ log_rows (skip_note comp) = []
  /\ (forall companies tr,
        exists evs,
          main globals cfg companies args tr = (Ok tt, tr ++ evs)
          /\ ~ In comp (processed evs)
          /\ Forall (of_eligible companies) evs).
Proof.
  intros Hskip. apply ineligible_spec in Hskip. split; [| split].
  - intros. apply for_companies_skip, Hskip.
  - unfold skip_note. destruct (nonempty (company comp)); reflexivity.
  - intros companies tr.
    destruct (main_run globals cfg companies args tr) as (evs & Hrun & _ & _ & Hall).
    exists (evs ++ [EvPrint (done_line cfg)]). split; [exact Hrun |]. split.
    + rewrite processed_app, app_nil_r. intros Hin.
      apply processed_In in Hin.
      rewrite Forall_forall in Hall. apply list_elem_of_In, Hall in Hin.
      destruct Hin as (_ & Hel). congruence.
    + apply Forall_app. split; [exact Hall | repeat constructor].
Qed.




(** ** The mail builder *)






(** ** The form filler *)

(** The loop of a field returns, and what it leaves is a [field_log]. *)
Lemma fill_field_run sels text :
  forall tr,
  exists evs,
    fill_field sels text tr = (Ok tt, tr ++ evs) /\ field_log text sels evs.
Proof.
  induction sels as [| sel rest IH]; intros tr.
  - exists []. rewrite app_nil_r. split; [reflexivity | constructor].
  - simpl. unfold bind, try_except, el_count, query, el_fill, call, ret.
    destruct (rt_count tr sel) as [n | e] eqn:Hcount.
    + destruct (Z.ltb_spec 0 n) as [Hpos | Hnone].
      * destruct (rt_fill (tr ++ [EvCount sel (Ok n)]) sel text) as [e |] eqn:Hfill.
        -- destruct (IH ((tr ++ [EvCount sel (Ok n)]) ++ [EvFill sel text (Some e)]))
             as (evs & Hrun & Hlog).
           rewrite Hrun. exists (EvCount sel (Ok n) :: EvFill sel text (Some e) :: evs).
           split; [rewrite <- !app_assoc; reflexivity | constructor; assumption].
        -- exists [EvCount sel (Ok n); EvFill sel text None].
           split; [rewrite <- !app_assoc; reflexivity | constructor; assumption].
      * destruct (IH (tr ++ [EvCount sel (Ok n)])) as (evs & Hrun & Hlog).
        rewrite Hrun. exists (EvCount sel (Ok n) :: evs).
        split; [rewrite <- !app_assoc; reflexivity | constructor; assumption].
    + destruct (IH (tr ++ [EvCount sel (Raise e)])) as (evs & Hrun & Hlog).
      rewrite Hrun. exists (EvCount sel (Raise e) :: evs).
      split; [rewrite <- !app_assoc; reflexivity | constructor; assumption].
Qed.

(** Every fill on the log is on a selector of the list. *)
Lemma field_log_fills text sels evs :
  field_log text sels evs ->
  forall sel t r, In (EvFill sel t r) evs -> In sel sels.
Proof.
  induction 1 as [| s rest n Hn | s rest n evs Hn Hlog IH | s rest e evs Hlog IH
                  | s rest n e evs Hn Hlog IH];
    intros sel t r Hin; simpl in Hin.
  - contradiction.
  - destruct Hin as [Hin | [Hin | []]]; [discriminate Hin |].
    injection Hin as -> _ _. left. reflexivity.
  - destruct Hin as [Hin | Hin]; [discriminate Hin |]. right. eapply IH, Hin.
  - destruct Hin as [Hin | Hin]; [discriminate Hin |]. right. eapply IH, Hin.
  - destruct Hin as [Hin | [Hin | Hin]]; [discriminate Hin | |].
    + injection Hin as -> _ _. left. reflexivity.
    + right. eapply IH, Hin.
Qed.

(** Nothing is filled unless a selector matched. *)
Lemma field_log_unfilled text sels evs :
  field_log text sels evs ->
  Forall (fun ev => forall sel, matched sel ev = false) evs ->
  forall sel t r, ~ In (EvFill sel t r) evs.
Proof.
  assert (Hno : forall s n, 0 < n -> matched s (EvCount s (Ok n)) = true).
  { intros s n Hn. simpl. rewrite String.eqb_refl. simpl.
    destruct (Z.ltb_spec 0 n); [reflexivity | lia]. }
  induction 1 as [| s rest n Hn | s rest n evs Hn Hlog IH | s rest e evs Hlog IH
                  | s rest n e evs Hn Hlog IH];
    intros Hall sel t r Hin; simpl in Hin.
  - contradiction.
  - inversion Hall as [| ? ? Hhead _]; subst.
    specialize (Hhead s). rewrite (Hno s n Hn) in Hhead. discriminate Hhead.
  - inversion Hall; subst.
    destruct Hin as [Hin | Hin]; [discriminate Hin | eapply IH; eassumption].
  - inversion Hall; subst.
    destruct Hin as [Hin | Hin]; [discriminate Hin | eapply IH; eassumption].
  - inversion Hall as [| ? ? Hhead _]; subst.
    specialize (Hhead s). rewrite (Hno s n Hn) in Hhead. discriminate Hhead.
Qed.

(** Once a selector has taken the text, no selector after it is tried. *)
Lemma field_log_stops text sels evs :
  field_log text sels evs -> NoDup sels ->
  forall pre sel post,
    sels = pre ++ sel :: post -> In (EvFill sel text None) evs ->
    forall later, In later post -> existsb (attempted later) evs = false.
Proof.
  assert (Hother : forall (s later : string) l,
             NoDup (s :: l) -> In later l -> String.eqb s later = false).
  { intros s later l Hnd Hin. apply String.eqb_neq. intros ->.
    apply NoDup_cons_1_1 in Hnd. apply Hnd, list_elem_of_In, Hin. }
  assert (Hsplit : forall (s : string) rest pre sel post,
             NoDup (s :: rest) -> s :: rest = pre ++ sel :: post -> In sel rest ->
             exists pre', pre = s :: pre' /\ rest = pre' ++ sel :: post).
  { intros s rest pre sel post Hnd Heq Hin. destruct pre as [| p pre'].
    - simpl in Heq. injection Heq as -> _.
      apply NoDup_cons_1_1 in Hnd. exfalso. apply Hnd, list_elem_of_In, Hin.
    - simpl in Heq. injection Heq as -> ->. eauto. }
  induction 1 as [| s rest n Hn | s rest n evs Hn Hlog IH | s rest e evs Hlog IH
                  | s rest n e evs Hn Hlog IH];
    intros Hnd pre sel post Heq Hin later Hlater.
  - destruct pre; discriminate Heq.
  - simpl in Hin. destruct Hin as [Hin | [Hin | []]]; [discriminate Hin |].
    injection Hin as <-. destruct pre as [| p pre'].
    + simpl in Heq. injection Heq as <-. simpl.
      rewrite (Hother s later rest Hnd Hlater). reflexivity.
    + simpl in Heq. injection Heq as -> ->.
      apply NoDup_cons_1_1 in Hnd. exfalso. apply Hnd, list_elem_of_In.
      apply in_or_app. right. left. reflexivity.
  - simpl in Hin. destruct Hin as [Hin | Hin]; [discriminate Hin |].
    destruct (Hsplit s rest pre sel post Hnd Heq (field_log_fills _ _ _ Hlog _ _ _ Hin))
      as (pre' & -> & Hrest).
    simpl. rewrite (IH (NoDup_cons_1_2 _ _ Hnd) pre' sel post Hrest Hin later Hlater).
    rewrite (Hother s later rest Hnd); [reflexivity |].
    rewrite Hrest. apply in_or_app. right. right. exact Hlater.
  - simpl in Hin. destruct Hin as [Hin | Hin]; [discriminate Hin |].
    destruct (Hsplit s rest pre sel post Hnd Heq (field_log_fills _ _ _ Hlog _ _ _ Hin))
      as (pre' & -> & Hrest).
    simpl. rewrite (IH (NoDup_cons_1_2 _ _ Hnd) pre' sel post Hrest Hin later Hlater).
    rewrite (Hother s later rest Hnd); [reflexivity |].
    rewrite Hrest. apply in_or_app. right. right. exact Hlater.
  - simpl in Hin. destruct Hin as [Hin | [Hin | Hin]];
      [discriminate Hin | discriminate Hin |].
    destruct (Hsplit s rest pre sel post Hnd Heq (field_log_fills _ _ _ Hlog _ _ _ Hin))
      as (pre' & -> & Hrest).
    simpl. rewrite (IH (NoDup_cons_1_2 _ _ Hnd) pre' sel post Hrest Hin later Hlater).
    rewrite (Hother s later rest Hnd); [reflexivity |].
    rewrite Hrest. apply in_or_app. right. right. exact Hlater.
Qed.

(** C4, amended.  For the selector list and the text of any field, the loop
    never raises and goes through the selectors in order: a selector is
    passed over when its count raises, when it matches no element, or when
    it matches and the fill raises; the first selector that matches and
    whose fill returns ends the loop.  So, the selectors being distinct, no
    selector after the one that took the text is tried; and when no selector
    matches, nothing is filled.  In particular, with three or more selectors
    of which the first two match nothing and the third matches and takes the
    text, the loop does exactly: count, count, count, fill through the third
    selector. *)
Theorem fill_field_first_success sels text tr :
  exists evs,
    fill_field sels text tr = (Ok tt, tr ++ evs)
    /\ field_log text sels evs
    /\ (NoDup sels ->
        forall pre sel post,
          sels = pre ++ sel :: post -> In (EvFill sel text None) evs ->
          forall later, In later post -> existsb (attempted later) evs = false)
    /\ (Forall (fun ev => forall sel, matched sel ev = false) evs ->
        forall sel t r, ~ In (EvFill sel t r) evs)
    /\ (forall s1 s2 s3 post n,
           sels = s1 :: s2 :: s3 :: post ->
           rt_count tr s1 = Ok 0 ->
           rt_count (tr ++ [EvCount s1 (Ok 0)]) s2 = Ok 0 ->
           rt_count (tr ++ [EvCount s1 (Ok 0); EvCount s2 (Ok 0)]) s3 = Ok n ->
           0 < n ->
           rt_fill (tr ++ [EvCount s1 (Ok 0); EvCount s2 (Ok 0); EvCount s3 (Ok n)])
                   s3 text = None ->
           evs = [EvCount s1 (Ok 0); EvCount s2 (Ok 0); EvCount s3 (Ok n);
                  EvFill s3 text None]).
Proof.
  destruct (fill_field_run sels text tr) as (evs & Hrun & Hlog).
  exists evs. split; [exact Hrun |]. split; [exact Hlog |].
  split; [intros Hnd; apply (field_log_stops _ _ _ Hlog Hnd) |].
  split; [apply (field_log_unfilled _ _ _ Hlog) |].
  intros s1 s2 s3 post n -> H1 H2 H3 Hn Hfill.
  simpl in Hrun. unfold bind, try_except, el_count, query, el_fill, call, ret in Hrun.
  rewrite H1 in Hrun. simpl in Hrun.
  rewrite H2 in Hrun. simpl in Hrun.
  rewrite <- app_assoc in Hrun. simpl in Hrun.
  rewrite H3 in Hrun.
  destruct (Z.ltb_spec 0 n) as [_ | Hle]; [| lia].
  rewrite <- app_assoc in Hrun. simpl in Hrun.
  rewrite Hfill in Hrun. rewrite <- !app_assoc in Hrun. simpl in Hrun.
  injection Hrun as Hrun. apply app_inv_head in Hrun. symmetry. exact Hrun.
Qed.


Lemma upload_step_later sel rest path ev :
  upload_step rest path ev -> upload_step (sel :: rest) path ev.
Proof. destruct ev; simpl; tauto. Qed.

Lemma existsb_false_Forall {A} (f : A -> bool) l :
  existsb f l = false <-> Forall (fun x => f x = false) l.
Proof.
  induction l as [| x l IH]; simpl.
  - split; [constructor | reflexivity].
  - rewrite orb_false_iff, IH. split.
    + intros (Hx & Hl). constructor; assumption.
    + intros Hall. inversion Hall; subst. split; assumption.
Qed.

(** The upload loop returns; it answers [true] exactly when a selector of
    the group matched and its input took the file. *)
Lemma upload_first_run sels path :
  forall tr,
  exists evs,
    upload_first sels path tr = (Ok (accepted sels path evs), tr ++ evs)
    /\ Forall (upload_step sels path) evs.
Proof.
  assert (Hgen : forall tr, exists evs b,
             upload_first sels path tr = (Ok b, tr ++ evs)
             /\ Forall (upload_step sels path) evs
             /\ (b = true ->
                 exists sel, In sel sels /\ existsb (matched sel) evs = true
                             /\ existsb (uploaded sel path) evs = true)
             /\ (b = false ->
                 Forall (fun ev => forall sel, uploaded sel path ev = false) evs)).
  { induction sels as [| sel rest IH]; intros tr.
    - exists [], false. rewrite app_nil_r.
      repeat split; try constructor; discriminate.
    - simpl. unfold bind, try_except, el_count, query, el_set_input_files, call, ret.
      assert (Hskip : forall ev,
                 upload_step (sel :: rest) path ev ->
                 (forall s, uploaded s path ev = false) ->
                 exists evs b,
                   upload_first rest path (tr ++ [ev]) = (Ok b, tr ++ evs)
                   /\ Forall (upload_step (sel :: rest) path) evs
                   /\ (b = true ->
                       exists s, In s (sel :: rest) /\ existsb (matched s) evs = true
                                 /\ existsb (uploaded s path) evs = true)
                   /\ (b = false ->
                       Forall (fun ev => forall s, uploaded s path ev = false) evs)).
      { intros ev Hstep Hno.
        destruct (IH (tr ++ [ev])) as (evs & b & Hrun & Hsteps & Hyes & Hnot).
        exists (ev :: evs), b. split; [rewrite Hrun, <- app_assoc; reflexivity |].
        split.
        { constructor; [exact Hstep |].
          eapply Forall_impl; [exact Hsteps | intros; apply upload_step_later; assumption]. }
        split.
        - intros Hb. destruct (Hyes Hb) as (s & Hin & Hm & Hu).
          exists s. split; [right; exact Hin |]. simpl. rewrite Hm, Hu, !orb_true_r. auto.
        - intros Hb. constructor; [exact Hno | apply Hnot, Hb]. }
      destruct (rt_count tr sel) as [n | e] eqn:Hcount.
      + destruct (Z.ltb_spec 0 n) as [Hpos | Hnone].
        * destruct (rt_set_input_files (tr ++ [EvCount sel (Ok n)]) sel path)
            as [e |] eqn:Hset.
          -- destruct (IH ((tr ++ [EvCount sel (Ok n)])
                           ++ [EvSetInputFiles sel path (Some e)]))
               as (evs & b & Hrun & Hsteps & Hyes & Hnot).
             exists (EvCount sel (Ok n) :: EvSetInputFiles sel path (Some e) :: evs), b.
             split; [rewrite Hrun, <- !app_assoc; reflexivity |]. split.
             { constructor; [left; reflexivity |].
               constructor; [split; [left; reflexivity | reflexivity] |].
               eapply Forall_impl; [exact Hsteps |].
               intros; apply upload_step_later; assumption. }
             split.
             ++ intros Hb. destruct (Hyes Hb) as (s & Hin & Hm & Hu).
                exists s. split; [right; exact Hin |]. simpl.
                rewrite Hm, Hu, !orb_true_r. auto.
             ++ intros Hb. constructor; [reflexivity |].
                constructor; [reflexivity | apply Hnot, Hb].
          -- exists [EvCount sel (Ok n); EvSetInputFiles sel path None], true.
             split; [rewrite <- !app_assoc; reflexivity |]. split.
             { repeat constructor. }
             split; [| discriminate].
             intros _. exists sel. split; [left; reflexivity |]. simpl.
             rewrite !String.eqb_refl. simpl.
             destruct (Z.ltb_spec 0 n); [auto | lia].
        * apply (Hskip (EvCount sel (Ok n))); [left; reflexivity | reflexivity].
      + apply (Hskip (EvCount sel (Raise e))); [left; reflexivity | reflexivity]. }
  intros tr. destruct (Hgen tr) as (evs & b & Hrun & Hsteps & Hyes & Hnot).
  exists evs. split; [| exact Hsteps]. rewrite Hrun. repeat f_equal.
  unfold accepted. destruct b.
  - destruct (Hyes eq_refl) as (sel & Hin & Hm & Hu).
    symmetry. apply existsb_exists. exists sel. split; [exact Hin |].
    rewrite Hm, Hu. reflexivity.
  - symmetry. apply existsb_false_Forall. apply Forall_forall. intros sel _.
    apply andb_false_iff. right. apply existsb_false_Forall.
    eapply Forall_impl; [apply Hnot; reflexivity |]. intros ev Hev. apply Hev.
Qed.

Lemma try_upload_run cfg group key tr :
  let path := rt_path_str (file_of cfg key) in
  exists evs,
    try_upload cfg group key tr
    = (Ok (present cfg key && accepted group path evs), tr ++ evs)
    /\ Forall (upload_step group path) evs.
Proof.
  intros path. unfold try_upload, present.
  destruct (rt_exists (file_of cfg key)); simpl.
  - apply upload_first_run.
  - exists []. rewrite app_nil_r. split; [reflexivity | constructor].
Qed.

Lemma submit_step_later sel rest ev :
  submit_step rest ev -> submit_step (sel :: rest) ev.
Proof. destruct ev as [| | | | | | | | | | | s [t |] r | | | | | |]; simpl; tauto. Qed.

(** The submit loop returns; it answers [true] exactly when a click landed. *)
Lemma click_submit_run sels :
  forall tr,
  exists evs,
    click_submit sels tr = (Ok (existsb clicked evs), tr ++ evs)
    /\ Forall (submit_step sels) evs.
Proof.
  induction sels as [| sel rest IH]; intros tr.
  - exists []. rewrite app_nil_r. split; [reflexivity | constructor].
  - simpl. unfold bind, try_except, el_click, call, ret.
    destruct (rt_click tr sel None) as [e |] eqn:Hclick.
    + destruct (IH (tr ++ [EvClick sel None (Some e)])) as (evs & Hrun & Hsteps).
      exists (EvClick sel None (Some e) :: evs).
      split; [rewrite Hrun, <- app_assoc; reflexivity |].
      constructor; [left; reflexivity |].
      eapply Forall_impl; [exact Hsteps | intros; apply submit_step_later; assumption].
    + exists [EvClick sel None None].
      split; [reflexivity | repeat constructor].
Qed.

Lemma success_check_run submitted tr :
  success_check submitted tr
  = (Ok (outcome_of submitted (rt_content tr)), tr ++ [EvContent (rt_content tr)]).
Proof.
  unfold success_check, outcome_of, has_success_text, try_except, bind, query, ret.
  destruct (rt_content tr) as [content | e]; [| reflexivity].
  destruct (existsb _ _); reflexivity.
Qed.



End Properties.

(** * Further properties *)

Section More.
Context `{Runtime}.

(** ** The two blocks of [process_company] *)







(** The email block: what the dispatcher does, then one row and one console
    line. *)
Lemma email_block_shape cfg comp dry_run log_csv ts tr :
  exists mail st det line,
    email_block cfg comp dry_run log_csv ts tr
    = (Ok tt,
       tr ++ mail
          ++ [EvAppendLog log_csv
                (log_row ts comp "email" (default "" (contact_email comp)) st det);
              EvPrint line])
    /\ Forall mailing mail
    /\ In st ["dry_run"; "sent"; "error"].
Proof.
  unfold email_block, try_except, bind, append_log, print, emit, ret.
  destruct dry_run.
  - exists [], "dry_run", "". eexists. simpl. rewrite <- !app_assoc.
    split; [reflexivity |]. split; [constructor | simpl; auto].
  - destruct (emits_run mailing _ tr (build_email_mailing cfg comp))
      as (r & built & Hbuild & Hbuilt).
    rewrite Hbuild. destruct r as [msg | e].
    + destruct (emits_run mailing _ (tr ++ built) (send_email_mailing cfg msg))
        as (r & sent & Hsend & Hsent).
      rewrite Hsend. destruct r as [[] | e].
      * exists (built ++ sent), "sent", "". eexists.
        split; [rewrite <- !app_assoc; reflexivity |].
        split; [apply Forall_app; split; assumption | simpl; auto].
      * exists (built ++ sent), "error", (exn_str e). eexists.
        split; [rewrite <- !app_assoc; reflexivity |].
        split; [apply Forall_app; split; assumption | simpl; auto].
    + exists built, "error", (exn_str e). eexists.
      split; [rewrite <- !app_assoc; reflexivity |].
      split; [assumption | simpl; auto].
Qed.

(** The form block, likewise. *)
Lemma form_block_shape globals cfg comp dry_run log_csv ts tr :
  exists web st det line,
    form_block globals cfg comp dry_run log_csv ts tr
    = (Ok tt,
       tr ++ web
          ++ [EvAppendLog log_csv
                (log_row ts comp "form" (default "" (apply_url comp)) st det);
              EvPrint line])
    /\ Forall browsing web
    /\ In st ["dry_run"; "ok"; "check"; "error"].
Proof.
  unfold form_block, try_except, bind, append_log, print, emit, ret.
  destruct dry_run.
  - exists [], "dry_run", "". eexists. simpl. rewrite <- !app_assoc.
    split; [reflexivity |]. split; [constructor | simpl; auto].
  - destruct (emits_run browsing _ tr (fill_form_and_submit_browsing globals cfg comp))
      as (r & web & Hfill & Hweb).
    rewrite Hfill. destruct r as [details | e].
    + exists web, (form_status details), details. eexists.
      split; [simpl; rewrite <- !app_assoc; reflexivity |].
      split; [assumption |].
      unfold form_status. destruct (_ || _); simpl; auto.
    + exists web, "error", (exn_str e). eexists.
      split; [rewrite <- !app_assoc; reflexivity |].
      split; [assumption | simpl; auto].
Qed.

(** [process_company] in parts: the entry mark, the email part and the form
    part; a part is empty when its guard fails and is otherwise the
    dispatcher's events followed by one row and one console line. *)
Lemma process_company_parts globals cfg comp dry_run mode tr :
  let log_csv := rt_path_str (output_csv cfg) in
  let ts := rt_now (tr ++ [EvProcessCompany comp]) in
  exists mail web,
    process_company globals cfg comp dry_run mode tr
    = (Ok tt, tr ++ [EvProcessCompany comp] ++ mail ++ web)
    /\ (if email_guard comp mode
        then exists sent st det line,
               mail = sent
                      ++ [EvAppendLog log_csv
                            (log_row ts comp "email"
                               (default "" (contact_email comp)) st det);
                          EvPrint line]
               /\ Forall mailing sent /\ In st ["dry_run"; "sent"; "error"]
        else mail = [])
    /\ (if form_guard cfg comp mode
        then exists done st det line,
               web = done
                     ++ [EvAppendLog log_csv
                           (log_row ts comp "form"
                              (default "" (apply_url comp)) st det);
                         EvPrint line]
               /\ Forall browsing done /\ In st ["dry_run"; "ok"; "check"; "error"]
        else web = []).
Proof.
  intros log_csv ts. unfold process_company.
  unfold bind at 1 2 3. unfold emit at 1. unfold now at 1.
  fold log_csv. fold ts. set (tr0 := tr ++ [EvProcessCompany comp]).
  assert (Hmail : exists mail,
             (if email_guard comp mode
              then email_block cfg comp dry_run log_csv ts else ret tt) tr0
             = (Ok tt, tr0 ++ mail)
             /\ (if email_guard comp mode
                 then exists sent st det line,
                        mail = sent
                               ++ [EvAppendLog log_csv
                                     (log_row ts comp "email"
                                        (default "" (contact_email comp)) st det);
                                   EvPrint line]
                        /\ Forall mailing sent /\ In st ["dry_run"; "sent"; "error"]
                 else mail = [])).
  { destruct (email_guard comp mode).
    - destruct (email_block_shape cfg comp dry_run log_csv ts tr0)
        as (sent & st & det & line & Hrun & Hsent & Hst).
      eexists. split; [exact Hrun |]. exists sent, st, det, line. auto.
    - exists []. rewrite app_nil_r. split; reflexivity. }
  destruct Hmail as (mail & Hrun & Hmail). rewrite Hrun.
  assert (Hweb : exists web,
             (if form_guard cfg comp mode
              then form_block globals cfg comp dry_run log_csv ts else ret tt)
               (tr0 ++ mail)
             = (Ok tt, (tr0 ++ mail) ++ web)
             /\ (if form_guard cfg comp mode
                 then exists done st det line,
                        web = done
                              ++ [EvAppendLog log_csv
                                    (log_row ts comp "form"
                                       (default "" (apply_url comp)) st det);
                                  EvPrint line]
                        /\ Forall browsing done
                        /\ In st ["dry_run"; "ok"; "check"; "error"]
                 else web = [])).
  { destruct (form_guard cfg comp mode).
    - destruct (form_block_shape globals cfg comp dry_run log_csv ts (tr0 ++ mail))
        as (done & st & det & line & Hrun' & Hdone & Hst).
      eexists. split; [exact Hrun' |]. exists done, st, det, line. auto.
    - exists []. rewrite app_nil_r. split; reflexivity. }
  destruct Hweb as (web & Hrun' & Hweb). rewrite Hrun'.
  exists mail, web. subst tr0.
  split; [rewrite <- !app_assoc; reflexivity |]. split; assumption.
Qed.

Lemma mailing_not_form evs :
  Forall mailing evs -> Forall (fun ev => form_event ev = false) evs.
Proof.
  intros Hall. eapply Forall_impl; [exact Hall |].
  intros ev. destruct ev; simpl; try reflexivity; contradiction.
Qed.

Lemma browsing_not_mail evs :
  Forall browsing evs -> Forall (fun ev => mail_event ev = false) evs.
Proof.
  intros Hall. eapply Forall_impl; [exact Hall |].
  intros ev. destruct ev; simpl; try reflexivity; discriminate.
Qed.





(** X3. A dispatcher is reached only through its guard.  When the email
    guard fails (the mode is neither "email" nor "both", or the record has
    no contact address) [build_email] and [send_email] are not entered and
    the mail server is not reached; when the form guard fails (the mode is
    neither "form" nor "both", the record has no apply URL, or forms are
    disabled) [fill_form_and_submit] is not entered and the browser is not
    reached.  With a mode other than the three, [process_company] does
    nothing at all. *)
Theorem guards_gate_dispatchers globals cfg comp dry_run mode tr :
  exists evs,
    process_company globals cfg comp dry_run mode tr = (Ok tt, tr ++ evs)
    /\ (email_guard comp mode = false ->
        Forall (fun ev => mail_event ev = false) evs)
    /\ (form_guard cfg comp mode = false ->
        Forall (fun ev => form_event ev = false) evs)
    /\ (mode_email mode = false -> mode_form mode = false ->
        evs = [EvProcessCompany comp]).
Proof.
  destruct (process_company_parts globals cfg comp dry_run mode tr)
    as (mail & web & Hrun & Hmail & Hweb).
  exists ([EvProcessCompany comp] ++ mail ++ web). split; [exact Hrun |].
  assert (Hwm : Forall (fun ev => mail_event ev = false) web).
  { destruct (form_guard cfg comp mode); [| subst web; constructor].
    destruct Hweb as (done & st & det & line & -> & Hdone & _).
    apply Forall_app. split; [apply browsing_not_mail, Hdone | repeat constructor]. }
  assert (Hmf : Forall (fun ev => form_event ev = false) mail).
  { destruct (email_guard comp mode); [| subst mail; constructor].
    destruct Hmail as (sent & st & det & line & -> & Hsent & _).
    apply Forall_app. split; [apply mailing_not_form, Hsent | repeat constructor]. }
  split; [| split].
  - intros Hoff. rewrite Hoff in Hmail. subst mail.
    constructor; [reflexivity | exact Hwm].
  - intros Hoff. rewrite Hoff in Hweb. subst web. rewrite app_nil_r.
    constructor; [reflexivity | exact Hmf].
  - intros He Hf. unfold email_guard, form_guard in *. rewrite He in Hmail.
    rewrite Hf in Hweb. simpl in Hmail, Hweb. subst mail web. reflexivity.
Qed.

(** ** Rows of a whole run *)




(** What [visited] and [pauses] come to for a negative limit. *)
Lemma visited_negative n companies count :
  n < 0 -> 0 <= count ->
  visited (Some n) companies count = take 1 (List.filter eligible companies)
  /\ pauses (Some n) companies count = 0%nat.
Proof.
  intros Hn. revert count.
  induction companies as [| comp rest IH]; intros count Hcount; simpl;
    [split; reflexivity |].
  assert (Hset : negb (n =? 0) = true) by (apply negb_true_iff, Z.eqb_neq; lia).
  rewrite Hset. simpl. destruct (eligible comp).
  - destruct (Z.leb_spec n (count + 1)); [| lia]. simpl. rewrite take_0.
    split; reflexivity.
  - apply IH. exact Hcount.
Qed.

(** X6. A negative limit [n] is not refused: the table loses its last [-n]
    rows ([companies[:n]]), and since the counter is at once at least [n]
    the loop is left after the first record it processes.  So at most one
    record is handled, the first eligible one of what is left of the table,
    and there is no delay. *)
Theorem negative_limit_run globals cfg args n companies tr :
  arg_limit args = Some n -> n < 0 ->
  exists evs,
    main globals cfg companies args tr
    = (Ok tt, tr ++ evs ++ [EvPrint (done_line cfg)])
    /\ processed evs
       = take 1 (List.filter eligible
                   (take (length companies - Z.to_nat (- n)) companies))
    /\ delays evs = 0%nat.
Proof.
  intros Hlimit Hn.
  destruct (main_run globals cfg companies args tr) as (evs & Hrun & Hproc & Hdel & _).
  rewrite Hlimit in Hproc, Hdel. simpl in Hproc, Hdel.
  assert (Hset : negb (n =? 0) = true) by (apply negb_true_iff, Z.eqb_neq; lia).
  rewrite Hset in Hproc, Hdel.
  destruct (visited_negative n (slice_to companies n) 0 Hn) as (Hv & Hp); [lia |].
  exists evs. split; [exact Hrun |]. rewrite Hproc, Hdel, Hv, Hp.
  split; [| reflexivity]. unfold slice_to.
  destruct (Z.leb_spec 0 n); [lia |].
  replace (Z.to_nat (Z.of_nat (length companies) + n))
    with (length companies - Z.to_nat (- n))%nat by lia.
  reflexivity.
Qed.

(** ** Templates and files of the mail builder *)




(** The attachment loop up to a listed file that exists and cannot be
    read. *)
Lemma attach_files_stops cfg pre key post e :
  (forall k, In k pre -> present cfg k = true ->
             exists data, rt_read (file_of cfg k) = Ok data) ->
  present cfg key = true -> rt_read (file_of cfg key) = Raise e ->
  forall msg tr,
    attach_files cfg (pre ++ key :: post) msg tr
    = (Raise e, tr ++ map (warning cfg) (List.filter (missing cfg) pre)).
Proof.
  intros Hread Hkey Hfail.
  induction pre as [| k pre IH]; intros msg tr; simpl.
  - unfold present in Hkey. rewrite Hkey. simpl. unfold bind, lift. rewrite Hfail.
    rewrite app_nil_r. reflexivity.
  - assert (Hpre : forall k', In k' pre -> present cfg k' = true ->
                              exists data, rt_read (file_of cfg k') = Ok data).
    { intros k' Hk'. apply Hread. right. exact Hk'. }
    unfold missing, present in *. destruct (rt_exists (file_of cfg k)) eqn:Hex; simpl.
    + destruct (Hread k (or_introl eq_refl) Hex) as (data & Hdata).
      unfold bind, lift. rewrite Hdata. unfold ret at 1. apply (IH Hpre).
    + unfold bind, print, emit. rewrite (IH Hpre), <- app_assoc. reflexivity.
Qed.

(** X8. A listed path that exists and cannot be opened (a directory, as when
    the key has no entry under files and the path is the empty one) is
    fatal: [build_email] raises the exception of [open], after the warnings
    for the missing files listed before it; the files listed after it are
    not looked at and no message is returned. *)
Theorem build_email_unreadable cfg comp tr msg0 pre key post e :
  render cfg comp = Ok msg0 ->
  default [] (attachments (email_cfg cfg)) = pre ++ key :: post ->
  (forall k, In k pre -> present cfg k = true ->
             exists data, rt_read (file_of cfg k) = Ok data) ->
  present cfg key = true -> rt_read (file_of cfg key) = Raise e ->
  build_email cfg comp tr
  = (Raise e,
     tr ++ EvBuildEmail comp :: map (warning cfg) (List.filter (missing cfg) pre)).
Proof.
  intros Hrender Hkeys Hread Hkey Hfail.
  unfold build_email, bind, emit, lift. rewrite Hrender, Hkeys. unfold ret at 1.
  rewrite (attach_files_stops cfg pre key post e Hread Hkey Hfail), <- app_assoc.
  reflexivity.
Qed.

(** ** The loops of the browser session *)

(** X9. The cookie loop has no early exit: every button text is clicked
    exactly once, in the order of the list and with a timeout of 2000 ms,
    whether the clicks before it landed or raised, and the loop never
    raises. *)
Theorem dismiss_cookies_clicks_all sels tr :
  exists evs,
    dismiss_cookies sels tr = (Ok tt, tr ++ evs)
    /\ Forall2 (fun sel ev => exists r, ev = EvClick sel (Some 2000) r) sels evs
    /\ length evs = length sels.
Proof.
  revert tr. induction sels as [| sel rest IH]; intros tr.
  - exists []. rewrite app_nil_r. repeat split. constructor.
  - simpl. unfold bind, try_except, el_click, call, ret.
    destruct (IH (tr ++ [EvClick sel (Some 2000) (rt_click tr sel (Some 2000))]))
      as (evs & Hrun & Hall & Hlen).
    exists (EvClick sel (Some 2000) (rt_click tr sel (Some 2000)) :: evs).
    split; [| split; [constructor; eauto | simpl; rewrite Hlen; reflexivity]].
    destruct (rt_click tr sel (Some 2000)); rewrite Hrun, <- app_assoc; reflexivity.
Qed.

Lemma dismiss_cookies_steps tr :
  exists evs,
    dismiss_cookies cookie_selectors tr = (Ok tt, tr ++ evs)
    /\ Forall cookie_step evs.
Proof.
  assert (Hgen : forall sels tr0,
             (forall sel, In sel sels -> In sel cookie_selectors) ->
             exists evs, dismiss_cookies sels tr0 = (Ok tt, tr0 ++ evs)
                         /\ Forall cookie_step evs).
  { induction sels as [| sel rest IH]; intros tr0 Hincl.
    - exists []. rewrite app_nil_r. split; [reflexivity | constructor].
    - simpl. unfold bind, try_except, el_click, call, ret.
      destruct (IH (tr0 ++ [EvClick sel (Some 2000) (rt_click tr0 sel (Some 2000))]))
        as (evs & Hrun & Hall); [intros s Hs; apply Hincl; right; exact Hs |].
      exists (EvClick sel (Some 2000) (rt_click tr0 sel (Some 2000)) :: evs).
      split.
      + destruct (rt_click tr0 sel (Some 2000)); rewrite Hrun, <- app_assoc; reflexivity.
      + constructor; [split; [apply Hincl; left; reflexivity | reflexivity] | exact Hall]. }
  apply Hgen. auto.
Qed.

Lemma field_log_steps text sels evs :
  field_log text sels evs -> Forall (field_step sels text) evs.
Proof.
  assert (Hlater : forall s rest ev,
             field_step rest text ev -> field_step (s :: rest) text ev).
  { intros s rest ev. destruct ev; simpl; tauto. }
  induction 1 as [| s rest n Hn | s rest n evs Hn Hlog IH | s rest e evs Hlog IH
                  | s rest n e evs Hn Hlog IH].
  - constructor.
  - repeat constructor.
  - constructor; [left; reflexivity |].
    eapply Forall_impl; [exact IH | apply Hlater].
  - constructor; [left; reflexivity |].
    eapply Forall_impl; [exact IH | apply Hlater].
  - constructor; [left; reflexivity |].
    constructor; [split; [left; reflexivity | reflexivity] |].
    eapply Forall_impl; [exact IH | apply Hlater].
Qed.

Lemma fill_field_steps sels text tr :
  exists evs,
    fill_field sels text tr = (Ok tt, tr ++ evs)
    /\ Forall (field_step sels text) evs.
Proof.
  destruct (fill_field_run sels text tr) as (evs & Hrun & Hlog).
  exists evs. split; [exact Hrun | apply field_log_steps, Hlog].
Qed.

(** X10. The submit loop clicks the submit selectors in the order of the
    list, without a timeout of its own, and never raises.  It ends with the
    first click that returns, and answers [True]: the selectors after it are
    not clicked.  When every click raises it has clicked each selector once
    and answers [False]. *)
Theorem click_submit_first_landing sels tr :
  exists evs b,
    click_submit sels tr = (Ok b, tr ++ evs)
    /\ b = existsb clicked evs
    /\ (if b
        then exists pre sel post failed,
               sels = pre ++ sel :: post
               /\ evs = failed ++ [EvClick sel None None]
               /\ Forall2 (fun s ev => exists e, ev = EvClick s None (Some e))
                    pre failed
        else Forall2 (fun s ev => exists e, ev = EvClick s None (Some e)) sels evs).
Proof.
  revert tr. induction sels as [| sel rest IH]; intros tr.
  - exists [], false. rewrite app_nil_r. repeat split. constructor.
  - simpl. unfold bind, try_except, el_click, call, ret.
    destruct (rt_click tr sel None) as [e |] eqn:Hclick.
    + destruct (IH (tr ++ [EvClick sel None (Some e)])) as (evs & b & Hrun & Hb & Hlog).
      exists (EvClick sel None (Some e) :: evs), b.
      split; [rewrite Hrun, <- app_assoc; reflexivity |].
      split; [simpl; exact Hb |].
      destruct b.
      * destruct Hlog as (pre & s & post & failed & -> & -> & Hfailed).
        exists (sel :: pre), s, post, (EvClick sel None (Some e) :: failed).
        repeat split. constructor; eauto.
      * constructor; eauto.
    + exists [EvClick sel None None], true. repeat split.
      exists [], sel, rest, []. repeat split. constructor.
Qed.


(** ** The browser session as a whole *)

Ltac open_call H :=
  unfold bind at 1 in H; unfold call at 1 in H;
  match type of H with
  | context [match ?answer with Some _ => _ | None => _ end] =>
      destruct answer as [?e |] eqn:?;
      [ injection H as <- <-;
        eexists _, _;
        split;
        [ rewrite <- ?app_assoc; reflexivity
        | left; eexists; split;
          [ reflexivity
          | unfold opening_failed;
            first [ left; reflexivity
                  | right; left; reflexivity
                  | right; right; left; reflexivity
                  | right; right; right; reflexivity ] ] ]
      | ]
  end.

(** The session in phases.  Either one of the four opening calls raised, and
    the session stops there with its exception; or the session goes through
    every phase up to the closing of the browser, and raises only what the
    closing raises. *)
Lemma form_session_phases cfg comp tr :
  let sels := selectors (forms cfg) in
  let ident := identity cfg in
  let path := fun key => rt_path_str (file_of cfg key) in
  exists r evs,
    form_session cfg comp tr = (r, tr ++ evs)
    /\ ((exists e, r = Raise e /\ opening_failed cfg comp e evs)
        \/ exists cookies names mails phones texts cv letter flyer submit page closing,
             evs = [EvLaunch (default true (headless (forms cfg))) None;
                    EvNewPage None;
                    EvSetTimeout (default 20000 (timeout_ms (forms cfg))) None;
                    EvGoto (apply_url comp) None]
                   ++ cookies ++ names ++ mails ++ phones ++ texts
                   ++ cv ++ letter ++ flyer ++ submit
                   ++ [EvContent page; EvClose closing]
             /\ Forall cookie_step cookies
             /\ Forall (field_step (sel_name sels)
                          (first_name ident +:+ " " +:+ last_name ident)) names
             /\ Forall (field_step (sel_email sels) (email ident)) mails
             /\ Forall (field_step (sel_phone sels) (phone ident)) phones
             /\ Forall (field_step (sel_message sels) (message_body cfg comp)) texts
             /\ Forall (upload_step (sel_cv_upload sels) (path "cv")) cv
             /\ Forall (upload_step (sel_letter_upload sels) (path "cover_letter"))
                  letter
             /\ Forall (upload_step (sel_flyer_upload sels) (path "simplon_flyer"))
                  flyer
             /\ Forall (submit_step (sel_submit sels)) submit
             /\ r = match closing with
                    | Some e => Raise e
                    | None =>
                        Ok (report (outcome_of (existsb clicked submit) page)
                              (present cfg "cv"
                               && accepted (sel_cv_upload sels) (path "cv") cv)
                              (present cfg "cover_letter"
                               && accepted (sel_letter_upload sels)
                                    (path "cover_letter") letter)
                              (present cfg "simplon_flyer"
                               && accepted (sel_flyer_upload sels)
                                    (path "simplon_flyer") flyer))
                    end).
Proof.
  intros sels ident path.
  destruct (form_session cfg comp tr) as [r tr'] eqn:Hrun.
  unfold form_session in Hrun. fold sels ident in Hrun.
  open_call Hrun. open_call Hrun. open_call Hrun. open_call Hrun.
  unfold bind at 1 in Hrun.
  match type of Hrun with
  | context [dismiss_cookies cookie_selectors ?t] =>
      destruct (dismiss_cookies_steps t) as (cookies & Hcookies & Hsteps0);
      rewrite Hcookies in Hrun
  end.
  run_with Hrun (fill_field_steps (sel_name sels)
                   (first_name ident +:+ " " +:+ last_name ident)).
  run_with Hrun (fill_field_steps (sel_email sels) (email ident)).
  run_with Hrun (fill_field_steps (sel_phone sels) (phone ident)).
  run_with Hrun (fill_field_steps (sel_message sels) (message_body cfg comp)).
  run_with Hrun (try_upload_run cfg (sel_cv_upload sels) "cv").
  run_with Hrun (try_upload_run cfg (sel_letter_upload sels) "cover_letter").
  run_with Hrun (try_upload_run cfg (sel_flyer_upload sels) "simplon_flyer").
  run_with Hrun (click_submit_run (sel_submit sels)).
  unfold bind at 1 in Hrun. rewrite success_check_run in Hrun.
  unfold bind at 1 in Hrun. unfold call at 1 in Hrun.
  match type of Hrun with
  | context [EvContent ?p] => set (page := p) in *
  end.
  match type of Hrun with
  | context [EvClose ?c] => set (closing := c) in *
  end.
  exists r. eexists. split.
  - assert (Htr : tr' = tr ++ [EvLaunch (default true (headless (forms cfg))) None;
                               EvNewPage None;
                               EvSetTimeout (default 20000 (timeout_ms (forms cfg))) None;
                               EvGoto (apply_url comp) None]
                           ++ cookies ++ evs ++ evs0 ++ evs1 ++ evs2 ++ evs3 ++ evs4
                           ++ evs5 ++ evs6 ++ [EvContent page; EvClose closing]).
    { destruct closing; injection Hrun as _ <-; rewrite <- !app_assoc; reflexivity. }
    rewrite Htr. reflexivity.
  - right. exists cookies, evs, evs0, evs1, evs2, evs3, evs4, evs5, evs6, page, closing.
    split; [reflexivity |].
    repeat (split; [assumption |]).
    destruct closing; injection Hrun as <- _; reflexivity.
Qed.









(** X15. A session reaches the page only with what the configuration and the
    record give it: the browser is launched with the configured headless
    flag and the page gets the configured timeout; the only address visited
    is the apply URL of the record; the clicks with a timeout are the cookie
    buttons and the clicks without one are submit selectors; every count is
    on a configured selector; every text typed into a selector of a field is
    the text of that field; every file handed to a selector of an upload
    group is the configured file of that group. *)
Theorem form_session_configured cfg comp tr :
  exists r evs,
    form_session cfg comp tr = (r, tr ++ evs)
    /\ Forall (session_step cfg comp) evs.
Proof.
  destruct (form_session_phases cfg comp tr) as (r & evs & Hrun & Hphases).
  exists r, evs. split; [exact Hrun |].
  destruct Hphases as [(e & _ & Hopen) | Hfull].
  - unfold opening_failed in Hopen.
    destruct Hopen as [-> | [-> | [-> | ->]]]; repeat constructor.
  - destruct Hfull as (cookies & names & mails & phones & texts & cv & letter & flyer
                       & submit & page & closing & -> & Hc & Hn & Hm & Hp & Hmsg
                       & Hcv & Hl & Hf & Hs & _).
    repeat (apply Forall_cons; split; [reflexivity |]).
    repeat rewrite Forall_app. repeat split.
    + eapply Forall_impl; [exact Hc |].
      intros ev. destruct ev as [| | | | | | | | | | | s [t |] a | | | | | |];
        simpl; tauto.
    + eapply Forall_impl; [exact Hn |].
      intros ev. destruct ev; simpl; try tauto; rewrite ?in_app_iff; tauto.
    + eapply Forall_impl; [exact Hm |].
      intros ev. destruct ev; simpl; try tauto; rewrite ?in_app_iff; tauto.
    + eapply Forall_impl; [exact Hp |].
      intros ev. destruct ev; simpl; try tauto; rewrite ?in_app_iff; tauto.
    + eapply Forall_impl; [exact Hmsg |].
      intros ev. destruct ev; simpl; try tauto; rewrite ?in_app_iff; tauto.
    + eapply Forall_impl; [exact Hcv |].
      intros ev. destruct ev; simpl; try tauto; rewrite ?in_app_iff; tauto.
    + eapply Forall_impl; [exact Hl |].
      intros ev. destruct ev; simpl; try tauto; rewrite ?in_app_iff; tauto.
    + eapply Forall_impl; [exact Hf |].
      intros ev. destruct ev; simpl; try tauto; rewrite ?in_app_iff; tauto.
    + eapply Forall_impl; [exact Hs |].
      intros ev. destruct ev as [| | | | | | | | | | | s [t |] a | | | | | |];
        simpl; tauto.
    + repeat constructor.
Qed.

(** ** The form row of the script *)





(** ** Pauses *)



(** ** The log file after a run *)

Lemma written_app evs1 evs2 files :
  written (evs1 ++ evs2) files = written evs2 (written evs1 files).
Proof. unfold written. apply fold_left_app. Qed.







(** ** Dry runs *)




End More.

(** * The mail builder under two runtimes *)




(** * The schedule of a run *)


(** * Runs on the sample runtime *)

Module Runs.
Import Sample.
(** The first end-to-end scenario of the specification. *)
Example dry_run_email_row :
  log_rows (snd (@main rt_simple forms_globals cfg [exemple_sa]
                   (args "email" true None) []))
  = [{| timestamp := "2025-01-01T09:00:00"; log_company := "Exemple SA";
        channel := "email"; target := "hr@exemple.fr"; status := "dry_run";
        details := "" |}].
Proof. vm_compute. reflexivity. Qed.

(** The second one: the same row in form mode leaves no row. *)
Example form_mode_without_url :
  log_rows (snd (@main rt_simple forms_globals cfg [exemple_sa]
                   (args "form" true None) []))
  = [].
Proof. vm_compute. reflexivity. Qed.

(** The single-file script on the sample page. *)
Example script_session :
  fst (@fill_form_and_submit rt_simple (script_globals true) cfg startup_xyz [])
  = Ok "success_detected; uploads cv=True, letter=False, flyer=False".
Proof. vm_compute. reflexivity. Qed.

(** Without Playwright the single-file script answers at once. *)
Example script_without_playwright :
  @fill_form_and_submit rt_simple (script_globals false) cfg startup_xyz []
  = (Ok "Playwright not installed", [EvFillForm startup_xyz]).
Proof. vm_compute. reflexivity. Qed.

(** A table with a nameless row: the row is skipped. *)
Lemma skipped_records_untouched_witness :
  company nameless = ""
  /\ exists evs,
       @main rt_simple forms_globals cfg [nameless; exemple_sa]
         (args "both" true None) [] = (Ok tt, evs)
       /\ ~ In nameless (processed evs).
Proof.
  split; [reflexivity |].
  destruct (@skipped_records_untouched rt_simple forms_globals cfg
              (args "both" true None) nameless (or_introl eq_refl))
    as (_ & _ & Hmain).
  destruct (Hmain [nameless; exemple_sa] []) as (evs & Hrun & Hnot & _).
  exists evs. split; assumption.
Defined.


(** The email field on a page where only the third selector matches. *)
Lemma fill_field_first_success_witness :
  @rt_count rt_third [] "input[type='email']" = Ok 0
  /\ 0 < 1
  /\ snd (@fill_field rt_third (sel_email default_selectors) "you@example.com" [])
     = [EvCount "input[type='email']" (Ok 0); EvCount "input[name*='mail']" (Ok 0);
        EvCount "input[id*='mail']" (Ok 1);
        EvFill "input[id*='mail']" "you@example.com" None].
Proof.
  split; [reflexivity |]. split; [reflexivity |].
  destruct (@fill_field_first_success rt_third (sel_email default_selectors)
              "you@example.com" [])
    as (evs & Hrun & _ & _ & _ & Hthree).
  rewrite Hrun. simpl.
  apply (Hthree "input[type='email']" "input[name*='mail']" "input[id*='mail']" [] 1);
    reflexivity.
Defined.





(** A name input that matches but cannot be filled: the loop goes on to the
    second selector. *)
Lemma fill_field_tries_past_a_match :
  snd (@fill_field rt_readonly (sel_name default_selectors) "Name Surname" [])
  = [EvCount "input[name*='name']" (Ok 1);
     EvFill "input[name*='name']" "Name Surname" (Some timeout_error);
     EvCount "input[name*='prenom']" (Ok 1);
     EvFill "input[name*='prenom']" "Name Surname" None]
  /\ ~ stops_at_first_match (sel_name default_selectors)
         (snd (@fill_field rt_readonly (sel_name default_selectors)
                 "Name Surname" [])).
Proof.
  split; [vm_compute; reflexivity |].
  intros Hstop.
  specialize (Hstop [] "input[name*='name']"
                (tail (sel_name default_selectors)) eq_refl).
  specialize (Hstop ltac:(vm_compute; reflexivity) "input[name*='prenom']"
                ltac:(left; reflexivity)).
  vm_compute in Hstop. discriminate Hstop.
Qed.



(** ** Further runs *)


(** The second starter row has no contact address: in mode both the mail
    dispatcher is not reached. *)
Lemma guards_gate_dispatchers_witness :
  email_guard startup_xyz "both" = false
  /\ Forall (fun ev => mail_event ev = false)
       (snd (@process_company rt_simple (script_globals true) cfg startup_xyz
               false "both" [])).
Proof.
  split; [reflexivity |].
  destruct (@guards_gate_dispatchers rt_simple (script_globals true) cfg startup_xyz
              false "both" [])
    as (evs & Hrun & Hmail & _).
  rewrite Hrun. apply Hmail. reflexivity.
Defined.


(** Limit -1 on the two starter rows: the second row is cut off and the
    first one is processed without a pause. *)
Lemma negative_limit_run_witness :
  arg_limit (args "both" true (Some (-1))) = Some (-1) /\ -1 < 0
  /\ exists evs,
       @main rt_simple forms_globals cfg [exemple_sa; startup_xyz]
         (args "both" true (Some (-1))) []
       = (Ok tt, evs ++ [EvPrint (done_line cfg)])
       /\ processed evs = [exemple_sa] /\ delays evs = 0%nat.
Proof.
  split; [reflexivity |]. split; [reflexivity |].
  destruct (@negative_limit_run rt_simple forms_globals cfg
              (args "both" true (Some (-1))) (-1) [exemple_sa; startup_xyz] []
              eq_refl eq_refl)
    as (evs & Hrun & Hproc & Hdel).
  exists evs. split; [exact Hrun |]. split; [exact Hproc | exact Hdel].
Defined.

(** The attachment list of the script with the files of the package: the
    third key has no path, the path read is the current directory, and the
    message is lost after the warning for the cover letter. *)
Lemma build_email_unreadable_witness :
  @present rt_simple cfg_mixed "simplon_flyer" = true
  /\ @rt_read rt_simple (file_of cfg_mixed "simplon_flyer") = Raise is_a_directory
  /\ @build_email rt_simple cfg_mixed exemple_sa []
     = (Raise is_a_directory,
        [EvBuildEmail exemple_sa;
         EvPrint "[!] Attachment missing: ./docs/motivation.pdf"]).
Proof.
  assert (Hpresent : @present rt_simple cfg_mixed "simplon_flyer" = true)
    by (vm_compute; reflexivity).
  assert (Hread : @rt_read rt_simple (file_of cfg_mixed "simplon_flyer")
                  = Raise is_a_directory)
    by (vm_compute; reflexivity).
  split; [exact Hpresent |]. split; [exact Hread |].
  destruct (@render rt_simple cfg_mixed exemple_sa) as [msg0 | e] eqn:Hrender;
    [| vm_compute in Hrender; discriminate Hrender].
  rewrite (@build_email_unreadable rt_simple cfg_mixed exemple_sa [] msg0
             ["cv"; "cover_letter"] "simplon_flyer" [] is_a_directory Hrender
             eq_refl).
  - vm_compute. reflexivity.
  - intros k [<- | [<- | []]] Hk; vm_compute in Hk; try discriminate Hk.
    eexists. vm_compute. reflexivity.
  - exact Hpresent.
  - exact Hread.
Defined.







End Runs.
